(** * diffpy.srfit.structure.bvsrestraint: the BVSRestraint class

    A shallow embedding of [BVSRestraint] (its constructor, [penalty] and
    [_validate]) together with the part of the Python object model the class
    relies on: binary64 floats, float objects with an identity, the
    conversions [float()] and [bool()], and exceptions.

    Python floats are IEEE 754 binary64 values; they are modelled by Rocq's
    primitive floats, whose operations are the correctly rounded ones.  The
    power [sig ** 2] is not one of them: the interpreter hands it to the C
    library's [pow], which is a parameter of the model. *)

From Stdlib Require Import String List.
From Stdlib Require Import ZArith Bool Floats Lia Reals Lra.

Local Open Scope float_scope.

(** ** Python values and exceptions *)

(** The identity of an object ([id(o)] in Python). *)
Definition objid := N.

(** A reference to a structure object owned by somebody else. *)
Definition loc := N.

(** The objects that reach this module.  Only float objects carry an explicit
    identity: [None], [True] and [False] are singletons, and the identity of
    an [int] is never observed here. *)
Inductive pyobj : Type :=
| PyNone
| PyBool (b : bool)
| PyInt (z : Z)
| PyFloat (id : objid) (v : float).

Inductive exn : Type :=
| TypeError
| OverflowError
| ZeroDivisionError
| AttributeError.

Inductive result (A : Type) : Type :=
| Ok (a : A)
| Raise (e : exn).

Arguments Ok {A} a.
Arguments Raise {A} e.

(** ** Float primitives of the interpreter *)

(** [PyLong_AsDouble]: the nearest double (ties to even), [OverflowError] when
    the integer is too large for a double. *)
Definition int_to_float (z : Z) : result float :=
  let f := SF2Prim (binary_normalize prec emax z 0 false) in
  if is_infinity f then Raise OverflowError else Ok f.

(** [float(o)], which is also the conversion a float operation applies to its
    other operand: a float is taken as it is, an [int] (and a [bool], a
    subclass of [int]) is converted, [None] is a [TypeError]. *)
Definition py_float (o : pyobj) : result float :=
  match o with
  | PyFloat _ v => Ok v
  | PyInt z => int_to_float z
  | PyBool b => Ok (if b then 1 else 0)
  | PyNone => Raise TypeError
  end.

(** [bool(o)]: truth value testing. *)
Definition py_bool (o : pyobj) : bool :=
  match o with
  | PyNone => false
  | PyBool b => b
  | PyInt z => negb (Z.eqb z 0)
  | PyFloat _ v => negb (v =? 0)
  end.

(** [iv ** 2] on a float ([float_pow] of CPython at the exponent 2.0): the
    special values are answered first, a negative base is negated (the
    exponent is even), a base of 1.0 is answered without a call, and an
    overflow of the C library call is reported as [OverflowError].

    [c_pow2 x] is the C library's [pow(x, 2.0)].  What it returns is the
    platform's business: a library need not round the square correctly, and
    the common ones are one unit in the last place off the rounded product
    [x * x] for some [x].  It is a parameter of the model, and is called on
    finite positive bases other than 1.0 only. *)
Definition float_pow2 (c_pow2 : float -> float) (iv : float) : result float :=
  if is_nan iv then Ok iv
  else if is_infinity iv then Ok (abs iv)
  else if iv =? 0 then Ok 0
  else
    let iv := if iv <? 0 then - iv else iv in
    if iv =? 1 then Ok 1
    else
      let ix := c_pow2 iv in
      if is_infinity ix then Raise OverflowError else Ok ix.

(** [v / w] on floats: division by a zero of either sign raises. *)
Definition float_div (v w : float) : result float :=
  if w =? 0 then Raise ZeroDivisionError else Ok (v / w).

(** [v * w] for a float [v] and any object [w]. *)
Definition float_mul (v : float) (w : pyobj) : result float :=
  match py_float w with
  | Ok w' => Ok (v * w')
  | Raise e => Raise e
  end.

(** ** What may be asked of the platform's [pow(x, 2.0)]

    The C standard leaves the accuracy of [pow] to the implementation.  A
    square is not negative; and a [pow] that errs by less than the distance
    between two squares keeps their order, and returns 1.0 at 1.0. *)
Definition pow2_nonneg (c_pow2 : float -> float) : Prop :=
  forall x, (0 <? x) = true -> is_nan (c_pow2 x) = false ->
            (0 <=? c_pow2 x) = true.

Definition pow2_monotone (c_pow2 : float -> float) : Prop :=
  c_pow2 1 = 1 /\
  forall x y, (0 <? x) = true -> (x <=? y) = true ->
              is_nan (c_pow2 x) = false -> is_nan (c_pow2 y) = false ->
              (c_pow2 x <=? c_pow2 y) = true.

(** ** Module-level objects *)

(** [numpy.nan] is one float object, created when numpy is imported. *)
Definition nan_id : objid := 0%N.
Definition numpy_nan : pyobj := PyFloat nan_id nan.

(** The default value [1.0] of [penalty]'s parameter [w] is one float object,
    created when the class body is executed. *)
Definition w_default_id : objid := 1%N.
Definition w_default : pyobj := PyFloat w_default_id 1.

(** [p is None]. *)
Definition is_None (p : pyobj) : bool :=
  match p with PyNone => true | _ => false end.

(** [p is q] for a float object [q]: the same object, whatever its value. *)
Definition is_obj (p q : pyobj) : bool :=
  match p, q with
  | PyFloat i _, PyFloat j _ => N.eqb i j
  | PyNone, PyNone => true
  | PyBool a, PyBool b => Bool.eqb a b
  | _, _ => false
  end.

(** The float a result carries, if it is a float object. *)
Definition float_of (p : pyobj) : option float :=
  match p with PyFloat _ v => Some v | _ => None end.

(** ** Default arguments

    A call may leave an argument out ([None] here); the body then sees the
    default of the signature: [sig = 1], [scaled = False], [w = 1.0]. *)
Definition arg_sig (sig : option pyobj) : pyobj :=
  match sig with Some o => o | None => PyInt 1 end.

Definition arg_scaled (scaled : option pyobj) : pyobj :=
  match scaled with Some o => o | None => PyBool false end.

Definition arg_w (w : option pyobj) : pyobj :=
  match w with Some o => o | None => w_default end.

Section Restraint.

(** ** The platform

    The C library's [pow(x, 2.0)], which [sig ** 2] comes down to. *)
Variable c_pow2 : float -> float.

(** ** The external collaborators

    The structure type and [BVSCalculator] come from SrReal.  A calculator is
    an object with a state of its own; [eval] runs it on a structure and
    [bvmsdiff] reads the mean-square difference of the last run. *)
Variable Structure : Type.
Variable BVSCalculator : Type.
Variable BVSCalculator_new : BVSCalculator.
Variable eval : BVSCalculator -> Structure -> BVSCalculator.
Variable bvmsdiff : BVSCalculator -> float.

(** ** The class *)

Record BVSRestraint : Type := mkBVSRestraint {
  _calc : BVSCalculator;
  _stru : loc;
  sig : float;
  scaled : bool
}.

(** [BVSRestraint.__init__(self, stru, sig = 1, scaled = False)]: the
    calculator is created, the structure reference kept, and [float(sig)] and
    [bool(scaled)] stored; [float(sig)] is the only step that can raise. *)
Definition __init__ (stru : loc) (sig scaled : option pyobj)
  : result BVSRestraint :=
  let sig := arg_sig sig in
  let scaled := arg_scaled scaled in
  let calc := BVSCalculator_new in
  match py_float sig with
  | Raise e => Raise e
  | Ok s => Ok (mkBVSRestraint calc stru s (py_bool scaled))
  end.

(** ** The state a method call runs in

    The restraint itself, the allocator of object identities, and the store
    of the structures that the restraint and the generators share. *)
Record State : Type := mkState {
  self : BVSRestraint;
  next_id : objid;
  structures : loc -> Structure
}.

Definition Py (A : Type) : Type := State -> result A * State.

Definition ret {A} (a : A) : Py A := fun st => (Ok a, st).

Definition raise {A} (e : exn) : Py A := fun st => (Raise e, st).

Definition bind {A B} (m : Py A) (k : A -> Py B) : Py B :=
  fun st =>
    match m st with
    | (Ok a, st') => k a st'
    | (Raise e, st') => (Raise e, st')
    end.

Definition lift {A} (r : result A) : Py A := fun st => (r, st).

Notation "x <- m ;; k" := (bind m (fun x => k))
  (at level 61, m at next level, right associativity).

(** Reading an attribute of [self]. *)
Definition attr {A} (f : BVSRestraint -> A) : Py A :=
  fun st => (Ok (f (self st)), st).

(** A new float object: its identity is the next free one. *)
Definition new_float (v : float) : Py pyobj :=
  fun st =>
    (Ok (PyFloat (next_id st) v),
     mkState (self st) (N.succ (next_id st)) (structures st)).

(** [self._calc.eval(self._stru)]: the calculator is run on the structure as
    it is now; the calculator object keeps the outcome. *)
Definition calc_eval : Py unit :=
  fun st =>
    let r := self st in
    let c := eval (_calc r) (structures st (_stru r)) in
    (Ok tt,
     mkState (mkBVSRestraint c (_stru r) (sig r) (scaled r))
             (next_id st) (structures st)).

(** [self._calc.bvmsdiff]: a new float object each time it is read. *)
Definition calc_bvmsdiff : Py pyobj :=
  c <- attr _calc ;; new_float (bvmsdiff c).

(** [a /= b] and [a *= w] for a float object [a]: floats are immutable, the
    name is bound to a new object. *)
Definition idiv (a : pyobj) (b : float) : Py pyobj :=
  a' <- lift (py_float a) ;;
  q <- lift (float_div a' b) ;;
  new_float q.

Definition imul (a : pyobj) (w : pyobj) : Py pyobj :=
  a' <- lift (py_float a) ;;
  q <- lift (float_mul a' w) ;;
  new_float q.

(** [BVSRestraint.penalty(self, w = 1.0)]: run the calculator, read the
    mean-square difference, divide it by [sig ** 2], multiply by [w] if the
    restraint is scaled. *)
Definition penalty (w : option pyobj) : Py pyobj :=
  let w := arg_w w in
  _ <- calc_eval ;;
  penalty <- calc_bvmsdiff ;;
  s <- attr sig ;;
  s2 <- lift (float_pow2 c_pow2 s) ;;
  penalty <- idiv penalty s2 ;;
  sc <- attr scaled ;;
  penalty <- (if sc then imul penalty w else ret penalty) ;;
  ret penalty.

(** [BVSRestraint._validate(self)].  [self.penalty()] is looked up on the
    object; [_validate_with] takes the method it finds. *)
Definition _validate_with (penalty : option pyobj -> Py pyobj) : Py unit :=
  let nan := numpy_nan in
  p <- penalty None ;;
  if is_None p || is_obj p nan then raise AttributeError else ret tt.

Definition _validate : Py unit := _validate_with penalty.

End Restraint.

Arguments mkBVSRestraint {BVSCalculator} _calc _stru sig scaled.
Arguments _calc {BVSCalculator} b.
Arguments _stru {BVSCalculator} b.
Arguments sig {BVSCalculator} b.
Arguments scaled {BVSCalculator} b.
Arguments mkState {Structure BVSCalculator} self next_id structures.
Arguments self {Structure BVSCalculator} s.
Arguments next_id {Structure BVSCalculator} s.
Arguments structures {Structure BVSCalculator} s.
Arguments penalty c_pow2 {Structure BVSCalculator} eval bvmsdiff w _.
Arguments _validate c_pow2 {Structure BVSCalculator} eval bvmsdiff _.
Arguments _validate_with {Structure BVSCalculator} penalty _.
Arguments ret {Structure BVSCalculator A} a _.
Arguments __init__ {BVSCalculator} BVSCalculator_new stru sig scaled.

(** ** What a call yields, apart from the identity of the result *)

(** The value a call returns (or the exception it raises), forgetting which
    object carries the value. *)
Definition outcome (r : result pyobj) : result (option float) :=
  match r with
  | Ok p => Ok (float_of p)
  | Raise e => Raise e
  end.

(** The penalty as a function of the raw divergence [d], the stored [sig] and
    [scaled], and the argument [w]: the steps of [penalty] without the
    objects. *)
Definition penalty_of (c_pow2 : float -> float) (d sig : float)
  (scaled : bool) (w : pyobj) : result float :=
  match float_pow2 c_pow2 sig with
  | Raise e => Raise e
  | Ok s2 =>
      match float_div d s2 with
      | Raise e => Raise e
      | Ok q => if scaled then float_mul q w else Ok q
      end
  end.

Definition result_map {A B} (f : A -> B) (r : result A) : result B :=
  match r with
  | Ok a => Ok (f a)
  | Raise e => Raise e
  end.

(** A state is well formed when the objects created at import time are older
    than every object still to be allocated. *)
Definition wf_state {S C} (st : State S C) : Prop :=
  (nan_id < next_id st)%N /\ (w_default_id < next_id st)%N.

(** ** The steps of [penalty], named

    The calculator after [self._calc.eval(self._stru)], and what it then
    reports. *)
Definition evaluated {S C} (eval : C -> S -> C) (st : State S C) : C :=
  eval (_calc (self st)) (structures st (_stru (self st))).

Definition raw_divergence {S C} (eval : C -> S -> C) (bvmsdiff : C -> float)
  (st : State S C) : float :=
  bvmsdiff (evaluated eval st).

(** The restraint after a call: the same attributes, around the calculator
    that has just run. *)
Definition self_after {S C} (eval : C -> S -> C) (st : State S C)
  : BVSRestraint C :=
  mkBVSRestraint (evaluated eval st) (_stru (self st)) (sig (self st))
                 (scaled (self st)).

(** * Binary64 rounding, described

    The notions used to reason about the rounding that every float operation
    ends with: the real number a mantissa and an exponent stand for, the place
    of a real number between two consecutive multiples of a power of two, and
    the numbering of the nonnegative floats. *)

Section RoundingNotions.

Local Open Scope R_scope.

(** Powers of two with an integer exponent. *)
Definition bpow (e : Z) : R := powerRZ 2 e.

(** The record [mrs] (a mantissa, a round bit and a sticky bit) at the
    exponent [e] locates the real [x]: [x] lies in the interval that starts at
    the mantissa, and the two bits tell whether it is the start of the
    interval, in its lower half, its middle, or its upper half. *)
Definition located (x : R) (mrs : shr_record) (e : Z) : Prop :=
  let m := IZR (shr_m mrs) in
  match shr_r mrs, shr_s mrs with
  | false, false => x = m * bpow e
  | false, true => m * bpow e < x < (m + /2) * bpow e
  | true, false => x = (m + /2) * bpow e
  | true, true => (m + /2) * bpow e < x < (m + 1) * bpow e
  end.

(** The real number a finite float of mantissa [m] and exponent [e] stands
    for. *)
Definition F2R (m : positive) (e : Z) : R := IZR (Z.pos m) * bpow e.

Local Open Scope Z_scope.

(** The exponent of the binary64 format at a given magnitude. *)
Definition fexp64 (e : Z) : Z := Z.max (e - 53) (-1074).

(** The round and sticky bits as a number from 0 to 3, in the order of the
    places they denote. *)
Definition code (mrs : shr_record) : Z :=
  (if shr_r mrs then 2 else 0) + (if shr_s mrs then 1 else 0).

(** The nonnegative floats in increasing order: the float of mantissa [m]
    and exponent [e] has the number [(e + 1074) * 2^52 + m]. *)
Definition ordinal (m e : Z) : Z := (e + 1074) * 4503599627370496 + m.

(** The place of a located real on the scale of the ordinals, in quarters. *)
Definition position (mrs : shr_record) (e : Z) : Z :=
  4 * ordinal (shr_m mrs) e + code mrs.

(** The mantissa after rounding to nearest, ties to even. *)
Definition rounded (mrs : shr_record) : Z :=
  round_nearest_even (shr_m mrs) (loc_of_shr_record mrs).

(** A mantissa and an exponent as the format has them: at most 53 bits, and
    exactly 53 bits above the smallest exponent. *)
Definition canonical (m e : Z) : Prop :=
  0 <= m < 9007199254740992 /\ -1074 <= e /\
  (e = -1074 \/ 4503599627370496 <= m).

(** [out] is the float of sign [s] whose ordinal is [K] (infinity beyond the
    largest finite float). *)
Definition float_at (s : bool) (out : spec_float) (K : Z) : Prop :=
  match out with
  | S754_zero s' => s' = s /\ K = 0
  | S754_finite s' m e =>
      s' = s /\ K = ordinal (Z.pos m) e /\ canonical (Z.pos m) e /\ e <= 971
  | S754_infinity s' => s' = s /\ 2047 * 4503599627370496 <= K
  | S754_nan => False
  end.

End RoundingNotions.

(** [0 <= x], [0 < x] and "is a NaN" on the specification side. *)
Definition SFnonneg (x : spec_float) : bool := SFleb (S754_zero false) x.

Definition SFpositive (x : spec_float) : bool := SFltb (S754_zero false) x.

Definition SFis_nan (x : spec_float) : bool :=
  match x with S754_nan => true | _ => false end.

(** ** Fixtures: concrete calculators

    A structure is summarised by the mean-square difference SrReal finds for
    it; [probe_eval] is a calculator that reports it, and [const_eval d] is
    the calculator of the end-to-end scenario, which reports [d] whatever the
    structure. *)
Module Fixture.

Definition Structure : Type := float.
Definition Calc : Type := float.
Definition calc_new : Calc := 0.

Definition probe_eval (_ : Calc) (s : Structure) : Calc := s.
Definition const_eval (d : float) (_ : Calc) (_ : Structure) : Calc := d.
Definition read (c : Calc) : float := c.

(** The [pow(x, 2.0)] of a C library that rounds the square correctly.  The
    squares taken at the restraints below are exact, or underflow to zero. *)
Definition pow2 (x : float) : float := x * x.

(** A restraint on the structure at location 0, whose content is [s]. *)
Definition state_of (s : Structure) (sg : float) (sc : bool)
  : State Structure Calc :=
  mkState (mkBVSRestraint calc_new 0%N sg sc) 2%N (fun _ => s).

End Fixture.

(** * The staged refinement of the example [nppdfsasII.py]

    [fitRecipe] drives a recipe through three optimizer runs; between the
    runs it sets the weights of the two contributions and chooses the
    variables that are free. *)

(** ** The recipe

    [FitRecipe] is a class of [diffpy.srfit.fitbase], which is not among the
    sources; what [fitRecipe] uses of it is modelled here. *)
Module FitBase.

(** Modelled from the spec: the status of a variable of the registry of
    [diffpy.srfit.fitbase.FitRecipe], free or fixed.  Constrained parameters
    are no variables, and staged fit control leaves them untouched; they are
    left out. *)
Inductive status : Type := Free | Fixed.

(** Modelled from the spec: a variable of [FitRecipe], a named scalar with a
    current value and a status. *)
Record variable : Type := mkVar {
  var_name : string;
  var_value : float;
  var_status : status
}.

(** Modelled from the spec: what [FitRecipe] owns of interest to staged fit
    control, the variable registry and one weight for each contribution, by
    the contribution's name. *)
Record FitRecipe : Type := mkRecipe {
  variables : list variable;
  weights : list (string * pyobj)
}.

(** Modelled from the spec: whether [FitRecipe] has a variable of that name;
    identity is by name. *)
Definition has_var (name : string) (r : FitRecipe) : bool :=
  existsb (fun v => String.eqb (var_name v) name) (variables r).

(** Modelled from the spec: whether [FitRecipe] has a contribution of that
    name. *)
Definition has_contribution (name : string) (r : FitRecipe) : bool :=
  existsb (fun c => String.eqb (fst c) name) (weights r).

(** Modelled from the spec: the attribute [recipe.<name>] of [FitRecipe], the
    contribution of that name, if there is one. *)
Definition contribution (name : string) (r : FitRecipe) : option string :=
  if has_contribution name r then Some name else None.

(** Modelled from the spec: the weight [FitRecipe] holds for a
    contribution. *)
Definition weight (con : string) (r : FitRecipe) : option pyobj :=
  option_map snd (find (fun c => String.eqb (fst c) con) (weights r)).

(** Modelled from the spec: [FitRecipe.setWeight(contribution, w)] sets the
    multiplier of that contribution. *)
Definition setWeight (con : string) (w : pyobj) (r : FitRecipe) : FitRecipe :=
  mkRecipe (variables r)
    (map (fun c => if String.eqb (fst c) con then (fst c, w) else c)
         (weights r)).

(** Modelled from the spec: the status transition of one variable of
    [FitRecipe]. *)
Definition set_status (s : status) (v : variable) : variable :=
  mkVar (var_name v) (var_value v) s.

(** Modelled from the spec: [FitRecipe.fixAll()], the bulk transition of
    every variable to fixed. *)
Definition fixAll (r : FitRecipe) : FitRecipe :=
  mkRecipe (map (set_status Fixed) (variables r)) (weights r).

(** Modelled from the spec: [FitRecipe.freeAll()], the bulk transition of
    every variable to free. *)
Definition freeAll (r : FitRecipe) : FitRecipe :=
  mkRecipe (map (set_status Free) (variables r)) (weights r).

(** Modelled from the spec: what [FitRecipe.freeVar(name, value)] does to one
    variable: the named one becomes free, and its value is overwritten when
    one is given. *)
Definition free_one (name : string) (value : option float) (v : variable)
  : variable :=
  if String.eqb (var_name v) name
  then mkVar (var_name v)
             (match value with Some x => x | None => var_value v end) Free
  else v.

(** Modelled from the spec: [FitRecipe.freeVar(name, value=None)]; that there
    is no variable of that name is a failure. *)
Definition freeVar (name : string) (value : option float) (r : FitRecipe)
  : option FitRecipe :=
  if has_var name r
  then Some (mkRecipe (map (free_one name value) (variables r)) (weights r))
  else None.

End FitBase.

Import FitBase.

(** ** [fitRecipe] *)

Section FitRecipe.

Import ListNotations.
Local Open Scope string_scope.

(** [scipyOptimize] of the example [gaussianrecipe.py], which is not among
    the sources: whatever it does to the recipe it is given. *)
Variable optimizer : FitRecipe -> FitRecipe.

(** The statements of [fitRecipe] act on the recipe and may fail; the recipes
    the optimizer was called on are kept in a log, in the order of the
    calls. *)
Definition Fit (A : Type) : Type :=
  FitRecipe * list FitRecipe -> option (A * (FitRecipe * list FitRecipe)).

Definition fit_bind {A B} (m : Fit A) (k : A -> Fit B) : Fit B :=
  fun s => match m s with Some (a, s') => k a s' | None => None end.

Definition call (f : FitRecipe -> FitRecipe) : Fit unit :=
  fun s => Some (tt, (f (fst s), snd s)).

Definition call_opt (f : FitRecipe -> option FitRecipe) : Fit unit :=
  fun s => match f (fst s) with
           | Some r => Some (tt, (r, snd s))
           | None => None
           end.

Definition attr_contribution (name : string) : Fit string :=
  fun s => match contribution name (fst s) with
           | Some c => Some (c, s)
           | None => None
           end.

Definition scipyOptimize : Fit unit :=
  fun s => Some (tt, (optimizer (fst s), (snd s ++ [fst s])%list)).

Notation "x <- m ;; k" := (fit_bind m (fun x => k))
  (at level 61, m at next level, right associativity).
Notation "m ;; k" := (fit_bind m (fun _ => k))
  (at level 61, right associativity).

(** [fitRecipe(recipe)]. *)
Definition fitRecipe : Fit unit :=
  (* Tune SAS. *)
  pdf <- attr_contribution "pdf" ;;
  call (setWeight pdf (PyInt 0)) ;;
  call fixAll ;;
  call_opt (freeVar "iqscale" (Some 1e8)) ;;
  call_opt (freeVar "radius_a" None) ;;
  call_opt (freeVar "radius_b" None) ;;
  scipyOptimize ;;
  (* Tune PDF *)
  pdf <- attr_contribution "pdf" ;;
  call (setWeight pdf (PyInt 1)) ;;
  sas <- attr_contribution "sas" ;;
  call (setWeight sas (PyInt 0)) ;;
  call fixAll ;;
  call_opt (freeVar "a" None) ;;
  call_opt (freeVar "Biso" None) ;;
  call_opt (freeVar "scale" None) ;;
  call_opt (freeVar "delta2" None) ;;
  scipyOptimize ;;
  (* Tune all *)
  pdf <- attr_contribution "pdf" ;;
  call (setWeight pdf (PyInt 1)) ;;
  sas <- attr_contribution "sas" ;;
  call (setWeight sas (PyInt 1)) ;;
  call freeAll ;;
  scipyOptimize.

End FitRecipe.

(** ** The stages of [fitRecipe], named *)

Section Stages.

Import ListNotations.
Local Open Scope string_scope.

(** The names of the variables, in the order of the registry, and those of
    the contributions. *)
Definition var_names (r : FitRecipe) : list string :=
  map var_name (variables r).

Definition contribution_names (r : FitRecipe) : list string :=
  map fst (weights r).

(** The recipe after a successful [freeVar]. *)
Definition freed (name : string) (value : option float) (r : FitRecipe)
  : FitRecipe :=
  mkRecipe (map (free_one name value) (variables r)) (weights r).

(** The recipe each of the three optimizer runs starts from, given the one
    the stage starts from. *)
Definition tune_sas (r : FitRecipe) : FitRecipe :=
  freed "radius_b" None
    (freed "radius_a" None
       (freed "iqscale" (Some 1e8) (fixAll (setWeight "pdf" (PyInt 0) r)))).

Definition tune_pdf (r : FitRecipe) : FitRecipe :=
  freed "delta2" None
    (freed "scale" None
       (freed "Biso" None
          (freed "a" None
             (fixAll (setWeight "sas" (PyInt 0)
                        (setWeight "pdf" (PyInt 1) r)))))).

Definition tune_all (r : FitRecipe) : FitRecipe :=
  freeAll (setWeight "sas" (PyInt 1) (setWeight "pdf" (PyInt 1) r)).

(** The variables [fitRecipe] frees in its first and in its second stage. *)
Definition sas_names : list string := ["iqscale"; "radius_a"; "radius_b"].
Definition pdf_names : list string := ["a"; "Biso"; "scale"; "delta2"].

(** The recipe has the variables and the contributions [fitRecipe] names. *)
Definition registered (r : FitRecipe) : bool :=
  forallb (fun n => has_var n r) (sas_names ++ pdf_names)%list
  && has_contribution "pdf" r && has_contribution "sas" r.

(** What an optimizer that moves the free variables only leaves of a
    variable: its name, its status, and its value if it is fixed.  Such an
    optimizer leaves the weights as well. *)
Definition kept (v v' : variable) : Prop :=
  var_name v' = var_name v /\ var_status v' = var_status v /\
  (var_status v = Fixed -> var_value v' = var_value v).

Definition moves_free_only (optimizer : FitRecipe -> FitRecipe) : Prop :=
  forall x, Forall2 kept (variables x) (variables (optimizer x)) /\
            weights (optimizer x) = weights x.

End Stages.

(** ** Fixtures: a recipe and an optimizer *)
Module FitFixture.

Import ListNotations.
Local Open Scope string_scope.

(** A recipe with the contributions and the variables [makeRecipe] registers,
    at their initial values; the lattice parameter, which [makeRecipe] reads
    from a file, is put at 3.5. *)
Definition example_recipe : FitRecipe :=
  mkRecipe
    [mkVar "a" 3.5 Free; mkVar "Biso" 0.5 Free; mkVar "scale" 1 Free;
     mkVar "delta2" 0 Free; mkVar "iqscale" 1 Free;
     mkVar "radius_a" 10 Free; mkVar "radius_b" 10 Free]
    [("pdf", PyInt 1); ("sas", PyInt 1)].

(** An optimizer that halves the value of every free variable. *)
Definition halve_free (r : FitRecipe) : FitRecipe :=
  mkRecipe
    (map (fun v => match var_status v with
                   | Free => mkVar (var_name v) (var_value v / 2) Free
                   | Fixed => v
                   end)
         (variables r))
    (weights r).

End FitFixture.

(** * Facts about binary64 arithmetic *)

Lemma Prim2SF_inj (x y : float) : Prim2SF x = Prim2SF y -> x = y.
Proof.
  intros H.
  rewrite <- (SF2Prim_Prim2SF x), <- (SF2Prim_Prim2SF y).
  now rewrite H.
Qed.

Lemma SFmul_comm (p em : Z) (a b : spec_float) :
  SFmul p em a b = SFmul p em b a.
Proof.
  destruct a as [sa|sa| |sa ma ea], b as [sb|sb| |sb mb eb]; simpl;
    try reflexivity; rewrite ?(xorb_comm sa sb); try reflexivity.
  now rewrite Pos.mul_comm, Z.add_comm.
Qed.

Lemma float_mul_comm (x y : float) : x * y = y * x.
Proof.
  apply Prim2SF_inj. rewrite !mul_spec. apply SFmul_comm.
Qed.

Lemma Prim2SF_one : Prim2SF 1 = S754_finite false 4503599627370496 (-52).
Proof. reflexivity. Qed.

(** Multiplying a valid finite float by one: the product of the mantissas is
    the mantissa shifted by 52 bits, and rounding shifts it back exactly. *)
Lemma SFmul_one_finite (s : bool) (m : positive) (e : Z) :
  SpecFloat.bounded prec emax m e = true ->
  SFmul prec emax (S754_finite s m e) (Prim2SF 1) = S754_finite s m e.
Proof.
  unfold SpecFloat.bounded, canonical_mantissa, fexp, emin. intros H.
  apply andb_true_iff in H. destruct H as [Hc Hb].
  apply Z.eqb_eq in Hc. apply Z.leb_le in Hb.
  rewrite Prim2SF_one.
  cbn [SFmul]. rewrite xorb_false_r, Pos.mul_comm. cbn [Pos.mul].
  unfold binary_round_aux, shr_fexp, fexp, emin, Zdigits2.
  cbn [digits2_pos].
  set (d := digits2_pos m) in *.
  rewrite !Pos2Z.inj_succ.
  replace (Z.max _ _ - _)%Z with 52%Z.
  2:{ unfold prec, emax in *. clearbody d. lia. }
  cbn [shr shr_record_of_loc SpecFloat.iter_pos shr_1 shr_m
       loc_of_shr_record round_nearest_even Zdigits2 orb].
  replace (e + -52 + 52)%Z with e by lia.
  fold d.
  replace (Z.max _ _ - _)%Z with 0%Z.
  2:{ unfold prec, emax in *. clearbody d. lia. }
  cbn [shr shr_m].
  apply Z.leb_le in Hb. now rewrite Hb.
Qed.

Lemma float_mul_1_r (x : float) : x * 1 = x.
Proof.
  apply Prim2SF_inj. rewrite mul_spec.
  pose proof (Prim2SF_valid x) as Hv.
  destruct (Prim2SF x) as [s|s| |s m e] eqn:E.
  - rewrite Prim2SF_one. cbn. now rewrite xorb_false_r.
  - rewrite Prim2SF_one. cbn. now rewrite xorb_false_r.
  - reflexivity.
  - apply SFmul_one_finite. exact Hv.
Qed.

(** * Rounding is monotone

    Every binary64 operation ends in [binary_round_aux], which shifts the
    exact result to the exponent of the format, rounds the mantissa to nearest
    even and renormalises.  The lemmas below follow a real number through
    these steps and show that a larger real number comes out as a larger
    float; multiplication and division of nonnegative floats inherit the
    order. *)

Section Powers.

Local Open Scope R_scope.

Lemma bpow_gt_0 e : 0 < bpow e.
Proof. apply powerRZ_lt. lra. Qed.

Lemma bpow_add a b : bpow (a + b) = bpow a * bpow b.
Proof. apply powerRZ_add. lra. Qed.

Lemma bpow_1 : bpow 1 = 2.
Proof. unfold bpow. apply powerRZ_1. Qed.

Lemma bpow_succ e : bpow (e + 1) = 2 * bpow e.
Proof. rewrite bpow_add, bpow_1. lra. Qed.

Lemma bpow_nonneg_IZR n : (0 <= n)%Z -> bpow n = IZR (2 ^ n).
Proof.
  intros Hn. unfold bpow. destruct n as [|p|p]; [reflexivity| |lia].
  symmetry. apply Zpower_pos_powerRZ.
Qed.

Lemma bpow_le a b : (a <= b)%Z -> bpow a <= bpow b.
Proof.
  intros H. replace b with (a + (b - a))%Z by lia.
  rewrite bpow_add, (bpow_nonneg_IZR (b - a)) by lia.
  assert (1 <= IZR (2 ^ (b - a))).
  { apply IZR_le. pose proof (Z.pow_pos_nonneg 2 (b - a)). lia. }
  pose proof (bpow_gt_0 a). nra.
Qed.

Lemma bpow_lt a b : (a < b)%Z -> bpow a < bpow b.
Proof.
  intros H. replace b with (a + (b - a))%Z by lia.
  rewrite bpow_add, (bpow_nonneg_IZR (b - a)) by lia.
  assert (2 <= IZR (2 ^ (b - a))).
  { apply IZR_le. replace (b - a)%Z with (Z.succ (b - a - 1)) by lia.
    rewrite Z.pow_succ_r by lia.
    pose proof (Z.pow_pos_nonneg 2 (b - a - 1)). lia. }
  pose proof (bpow_gt_0 a). nra.
Qed.

(** A comparison of reals at a common exponent is one of integers. *)
Lemma IZR_bpow_lt (m k : Z) (e : Z) :
  IZR m * bpow e < bpow (k + e) -> (0 <= k)%Z -> (m < 2 ^ k)%Z.
Proof.
  intros H Hk. rewrite bpow_add, (bpow_nonneg_IZR k) in H by exact Hk.
  pose proof (bpow_gt_0 e). apply lt_IZR. nra.
Qed.

End Powers.

Section Located.

Local Open Scope R_scope.

(** A located real lies in the interval of its mantissa. *)
Lemma located_bounds x mrs e :
  located x mrs e ->
  IZR (shr_m mrs) * bpow e <= x < (IZR (shr_m mrs) + 1) * bpow e.
Proof.
  destruct mrs as [m r s]. unfold located. cbn.
  pose proof (bpow_gt_0 e).
  destruct r, s; intros; nra.
Qed.

(** Shifting the record by one bit keeps the real it locates. *)
Lemma located_shr_1 x mrs e :
  (0 <= shr_m mrs)%Z -> located x mrs e ->
  located x (shr_1 mrs) (e + 1) /\ (0 <= shr_m (shr_1 mrs))%Z.
Proof.
  destruct mrs as [m r s]. unfold located. cbn [shr_m shr_r shr_s].
  intros Hm. pose proof (bpow_gt_0 e) as Hb.
  destruct m as [|p|p]; [| |lia].
  - cbn. rewrite bpow_succ. destruct r, s; cbn; intros; split; try lia; nra.
  - destruct p as [p|p|]; cbn [shr_1 shr_m shr_r shr_s]; rewrite bpow_succ.
    + rewrite Pos2Z.inj_xI, plus_IZR, mult_IZR.
      destruct r, s; cbn; intros; split; try lia; nra.
    + rewrite Pos2Z.inj_xO, mult_IZR.
      destruct r, s; cbn; intros; split; try lia; nra.
    + destruct r, s; cbn; intros; split; try lia; nra.
Qed.

Lemma located_iter x p : forall mrs e,
  (0 <= shr_m mrs)%Z -> located x mrs e ->
  located x (SpecFloat.iter_pos shr_1 p mrs) (e + Z.pos p) /\
  (0 <= shr_m (SpecFloat.iter_pos shr_1 p mrs))%Z.
Proof.
  induction p as [p IH|p IH|]; intros mrs e Hm Hl; cbn [SpecFloat.iter_pos].
  - destruct (located_shr_1 x mrs e Hm Hl) as [H1 H1'].
    destruct (IH _ _ H1' H1) as [H2 H2'].
    destruct (IH _ _ H2' H2) as [H3 H3'].
    split; [|exact H3'].
    replace (e + Z.pos p~1)%Z with (e + 1 + Z.pos p + Z.pos p)%Z by lia.
    exact H3.
  - destruct (IH _ _ Hm Hl) as [H2 H2'].
    destruct (IH _ _ H2' H2) as [H3 H3'].
    split; [|exact H3'].
    replace (e + Z.pos p~0)%Z with (e + Z.pos p + Z.pos p)%Z by lia.
    exact H3.
  - apply located_shr_1; assumption.
Qed.

Lemma located_shr x mrs e n :
  (0 <= shr_m mrs)%Z -> located x mrs e ->
  located x (fst (shr mrs e n)) (snd (shr mrs e n)) /\
  (0 <= shr_m (fst (shr mrs e n)))%Z /\
  snd (shr mrs e n) = (e + Z.max n 0)%Z.
Proof.
  intros Hm Hl. destruct n as [|p|p]; cbn [shr fst snd].
  - repeat split; try assumption; lia.
  - destruct (located_iter x p mrs e Hm Hl). repeat split; try assumption; lia.
  - repeat split; try assumption; lia.
Qed.

(** The number of bits of a mantissa brackets it between two powers of
    two. *)
Lemma digits2_pos_size p : digits2_pos p = Pos.size p.
Proof. induction p; cbn; congruence. Qed.

Lemma Zdigits2_bounds m :
  (0 < m)%Z -> (2 ^ (Zdigits2 m - 1) <= m < 2 ^ Zdigits2 m)%Z.
Proof.
  destruct m as [|p|p]; try lia. intros _. cbn [Zdigits2].
  rewrite digits2_pos_size.
  pose proof (Pos.size_gt p) as Hgt. pose proof (Pos.size_le p) as Hle.
  split.
  - assert (H2 : (2 ^ Z.pos (Pos.size p) <= Z.pos p~0)%Z).
    { rewrite <- Pos2Z.inj_pow. lia. }
    replace (Z.pos (Pos.size p)) with (Z.succ (Z.pos (Pos.size p) - 1)) in H2
      by lia.
    rewrite Z.pow_succ_r in H2 by lia. lia.
  - rewrite <- Pos2Z.inj_pow. lia.
Qed.

Lemma Zdigits2_nonneg m : (0 <= Zdigits2 m)%Z.
Proof. destruct m; cbn; lia. Qed.

Lemma IZR_lt_bpow_digits m e :
  (0 <= m)%Z -> (IZR m + 1) * bpow e <= bpow (Zdigits2 m + e).
Proof.
  intros Hm. pose proof (bpow_gt_0 e).
  rewrite bpow_add, (bpow_nonneg_IZR (Zdigits2 m)) by apply Zdigits2_nonneg.
  apply Rmult_le_compat_r; [lra|].
  rewrite <- plus_IZR. apply IZR_le.
  destruct (Z.eq_dec m 0) as [->|]; [cbn; lia|].
  pose proof (Zdigits2_bounds m). lia.
Qed.

Lemma bpow_digits_le_IZR m e :
  (0 < m)%Z -> bpow (Zdigits2 m - 1 + e) <= IZR m * bpow e.
Proof.
  intros Hm. pose proof (bpow_gt_0 e).
  pose proof (Zdigits2_bounds m Hm).
  rewrite bpow_add, (bpow_nonneg_IZR (Zdigits2 m - 1)).
  - apply Rmult_le_compat_r; [lra|]. apply IZR_le. lia.
  - clear - Hm. destruct m as [|p|p]; try lia. cbn [Zdigits2]. lia.
Qed.

Lemma fexp64_eq e : fexp prec emax e = fexp64 e.
Proof. reflexivity. Qed.

(** The first step of the rounding: after the shift to the exponent of the
    format the record still locates the real, and its mantissa has at most 53
    bits, exactly 53 above the smallest exponent. *)
Lemma shr_fexp_located x m e l :
  (0 <= m)%Z ->
  located x (shr_record_of_loc m l) e ->
  (e <= fexp64 (Zdigits2 m + e))%Z ->
  let mrs1 := fst (shr_fexp prec emax m e l) in
  let e1 := snd (shr_fexp prec emax m e l) in
  located x mrs1 e1 /\
  (0 <= shr_m mrs1 < 2 ^ 53)%Z /\
  e1 = fexp64 (Zdigits2 m + e) /\
  (-1074 <= e1)%Z /\
  (e1 = (-1074)%Z \/ (2 ^ 52 <= shr_m mrs1)%Z).
Proof.
  intros Hm Hl He. cbv zeta. unfold shr_fexp. rewrite fexp64_eq.
  assert (Hm' : (0 <= shr_m (shr_record_of_loc m l))%Z).
  { destruct l as [|[]]; cbn; exact Hm. }
  destruct (located_shr x _ e (fexp64 (Zdigits2 m + e) - e) Hm' Hl)
    as (H1 & H2 & H3).
  set (r := shr (shr_record_of_loc m l) e (fexp64 (Zdigits2 m + e) - e)) in *.
  assert (E1 : snd r = fexp64 (Zdigits2 m + e)) by lia.
  pose proof (located_bounds _ _ _ H1) as [Hlo Hhi].
  pose proof (located_bounds _ _ _ Hl) as [Hlo0 Hhi0].
  assert (Hsm : shr_m (shr_record_of_loc m l) = m)
    by (destruct l as [|[]]; reflexivity).
  rewrite Hsm in *.
  pose proof (IZR_lt_bpow_digits m e Hm) as Hup.
  assert (Hlt : (shr_m (fst r) < 2 ^ 53)%Z).
  { apply (IZR_bpow_lt _ 53 (snd r)); [|lia].
    apply Rle_lt_trans with (1 := Hlo). apply Rlt_le_trans with (1 := Hhi0).
    apply Rle_trans with (1 := Hup). apply bpow_le. rewrite E1.
    unfold fexp64. lia. }
  repeat split; try assumption; try lia.
  - rewrite E1. unfold fexp64. lia.
  - destruct (Z.eq_dec (snd r) (-1074)) as [|Hne]; [now left|right].
    assert (Hpos : (0 < m)%Z).
    { destruct (Z.eq_dec m 0) as [->|]; [|lia]. cbn in He, E1.
      unfold fexp64 in *. lia. }
    pose proof (bpow_digits_le_IZR m e Hpos) as Hdn.
    assert (E2 : (Zdigits2 m - 1 + e = 52 + snd r)%Z)
      by (unfold fexp64 in *; lia).
    rewrite E2 in Hdn.
    assert (Hb : bpow (52 + snd r) < (IZR (shr_m (fst r)) + 1) * bpow (snd r))
      by lra.
    rewrite bpow_add, (bpow_nonneg_IZR 52) in Hb by lia.
    pose proof (bpow_gt_0 (snd r)).
    assert (IZR (2 ^ 52) < IZR (shr_m (fst r)) + 1) by nra.
    rewrite <- plus_IZR in H0. apply lt_IZR in H0. lia.
Qed.

End Located.

Section Rounding.

Local Open Scope Z_scope.

Lemma rounded_bounds mrs : shr_m mrs <= rounded mrs <= shr_m mrs + 1.
Proof.
  destruct mrs as [m [] []]; unfold rounded; cbn;
    try destruct (Z.even m); lia.
Qed.

Lemma even_ordinal m e : Z.even (ordinal m e) = Z.even m.
Proof.
  unfold ordinal.
  replace ((e + 1074) * 4503599627370496 + m)
    with (m + 2 * ((e + 1074) * 2251799813685248)) by lia.
  apply Z.even_add_mul_2.
Qed.

(** Rounding to nearest even never reverses the order of two positions. *)
Lemma rounded_mono mrs e mrs' e' :
  position mrs e <= position mrs' e' ->
  ordinal (rounded mrs) e <= ordinal (rounded mrs') e'.
Proof.
  unfold position. intros H.
  pose proof (even_ordinal (shr_m mrs) e) as Ev.
  pose proof (even_ordinal (shr_m mrs') e') as Ev'.
  assert (Hr : forall m k, ordinal m k = ordinal 0 k + m)
    by (unfold ordinal; lia).
  rewrite (Hr (rounded mrs)), (Hr (rounded mrs')).
  rewrite (Hr (shr_m mrs)) in *. rewrite (Hr (shr_m mrs')) in *.
  revert H Ev Ev'. generalize (ordinal 0 e) (ordinal 0 e'). intros K K'.
  destruct mrs as [m r s], mrs' as [m' r' s']. unfold rounded, code.
  cbn [shr_m shr_r shr_s]. intros H Ev Ev'.
  destruct (Z.eq_dec (K + m) (K' + m')) as [E|NE].
  - assert (Z.even m = Z.even m') by congruence.
    destruct r, s, r', s';
      cbn [loc_of_shr_record round_nearest_even] in *; try lia;
      rewrite ?H0; destruct (Z.even m'); lia.
  - pose proof (rounded_bounds (Build_shr_record m r s)) as B.
    pose proof (rounded_bounds (Build_shr_record m' r' s')) as B'.
    unfold rounded in B, B'. cbn [shr_m] in B, B'.
    assert (code_le : 0 <= (if r then 2 else 0) + (if s then 1 else 0) <= 3)
      by (destruct r, s; lia).
    assert (code_le' : 0 <= (if r' then 2 else 0) + (if s' then 1 else 0) <= 3)
      by (destruct r', s'; lia).
    lia.
Qed.

(** The order of the ordinals is the order of the floats. *)
Lemma float_at_leb out K out' K' :
  float_at false out K -> float_at false out' K' -> K <= K' ->
  SFleb out out' = true.
Proof.
  unfold float_at, canonical, ordinal.
  destruct out as [s|s| |s m e], out' as [s'|s'| |s' m' e']; try tauto;
    intros H H' HK; unfold SFleb, SFcompare;
    repeat match goal with H : _ /\ _ |- _ => destruct H end; subst;
    try reflexivity; try lia.
  destruct (Z.compare_spec e e') as [E|L|G]; try reflexivity.
  - subst e'. rewrite Pos.compare_cont_spec. cbn.
    destruct (Pos.compare_spec m m'); try reflexivity. lia.
  - lia.
Qed.

Lemma Zdigits2_le_53 m : 0 <= m < 9007199254740992 -> Zdigits2 m <= 53.
Proof.
  intros [H0 H1]. destruct (Z.eq_dec m 0) as [->|]; [cbn; lia|].
  pose proof (Zdigits2_bounds m ltac:(lia)) as [Hlo _].
  destruct (Z_le_gt_dec (Zdigits2 m) 53) as [|Hgt]; [assumption|].
  assert (2 ^ 53 <= 2 ^ (Zdigits2 m - 1)) by (apply Z.pow_le_mono_r; lia).
  change (2 ^ 53) with 9007199254740992 in H. lia.
Qed.

(** The second half of [binary_round_aux]: renormalising after the rounding
    of the mantissa and checking for overflow. *)
Lemma round_finish s mrs1 e1 :
  canonical (shr_m mrs1) e1 ->
  let m2 := rounded mrs1 in
  float_at s
    (let '(mrs'', e'') := shr_fexp prec emax m2 e1 loc_Exact in
     match shr_m mrs'' with
     | 0 => S754_zero s
     | Z.pos m => if e'' <=? emax - prec then S754_finite s m e''
                  else S754_infinity s
     | Z.neg _ => S754_nan
     end)
    (ordinal m2 e1).
Proof.
  intros (Hm & He & Hc). cbv zeta.
  pose proof (rounded_bounds mrs1) as Hr.
  set (m2 := rounded mrs1) in *.
  destruct (Z.eq_dec m2 9007199254740992) as [E|NE].
  - rewrite E. unfold shr_fexp. rewrite fexp64_eq.
    change (Zdigits2 9007199254740992) with 54.
    replace (fexp64 (54 + e1) - e1) with 1 by (unfold fexp64; lia).
    cbn [shr shr_record_of_loc SpecFloat.iter_pos shr_1 shr_m].
    change (emax - prec) with 971.
    destruct (Z.leb_spec (e1 + 1) 971); unfold float_at, canonical, ordinal;
      (split; [reflexivity|lia]).
  - assert (Hm2 : 0 <= m2 < 9007199254740992) by lia.
    pose proof (Zdigits2_le_53 m2 Hm2) as Hd.
    unfold shr_fexp. rewrite fexp64_eq.
    assert (Hn : fexp64 (Zdigits2 m2 + e1) - e1 <= 0) by (unfold fexp64; lia).
    assert (Hshr : shr (shr_record_of_loc m2 loc_Exact) e1
                     (fexp64 (Zdigits2 m2 + e1) - e1)
                   = (shr_record_of_loc m2 loc_Exact, e1)).
    { destruct (fexp64 (Zdigits2 m2 + e1) - e1); try reflexivity. lia. }
    rewrite Hshr. cbn [shr_record_of_loc shr_m].
    change (emax - prec) with 971.
    destruct m2 as [|p|p]; [| |lia].
    + unfold float_at, ordinal. split; [reflexivity|lia].
    + destruct (Z.leb_spec e1 971); unfold float_at, canonical, ordinal;
        (split; [reflexivity|lia]).
Qed.

(** The whole of [binary_round_aux] on a located input that is at least as
    fine as the format. *)
Lemma binary_round_aux_ordinal (x : R) s m e l :
  0 <= m ->
  located x (shr_record_of_loc m l) e ->
  e <= fexp64 (Zdigits2 m + e) ->
  let mrs1 := fst (shr_fexp prec emax m e l) in
  let e1 := snd (shr_fexp prec emax m e l) in
  located x mrs1 e1 /\ canonical (shr_m mrs1) e1 /\
  float_at s (binary_round_aux prec emax s m e l) (ordinal (rounded mrs1) e1).
Proof.
  intros Hm Hl He. cbv zeta.
  destruct (shr_fexp_located x m e l Hm Hl He) as (H1 & H2 & H3 & H4 & H5).
  assert (Hc : canonical (shr_m (fst (shr_fexp prec emax m e l)))
                         (snd (shr_fexp prec emax m e l))).
  { unfold canonical. change (2 ^ 53) with 9007199254740992 in H2.
    change (2 ^ 52) with 4503599627370496 in H5. lia. }
  split; [exact H1|]. split; [exact Hc|].
  unfold binary_round_aux.
  destruct (shr_fexp prec emax m e l) as [mrs1 e1]. cbn [fst snd] in *.
  apply (round_finish s mrs1 e1 Hc).
Qed.

(** The position of a located real grows with the real. *)
Lemma position_mono (x x' : R) mrs e mrs' e' :
  (x <= x')%R ->
  located x mrs e -> located x' mrs' e' ->
  canonical (shr_m mrs) e -> canonical (shr_m mrs') e' ->
  position mrs e <= position mrs' e'.
Proof.
  intros Hx Hl Hl' (Hm & He & Hc) (Hm' & He' & Hc').
  pose proof (located_bounds _ _ _ Hl) as [Hlo Hhi].
  pose proof (located_bounds _ _ _ Hl') as [Hlo' Hhi'].
  assert (Hcode : 0 <= code mrs <= 3)
    by (unfold code; destruct (shr_r mrs), (shr_s mrs); lia).
  assert (Hcode' : 0 <= code mrs' <= 3)
    by (unfold code; destruct (shr_r mrs'), (shr_s mrs'); lia).
  unfold position, ordinal.
  destruct (Z.lt_trichotomy e e') as [L|[E|G]].
  - lia.
  - subst e'. pose proof (bpow_gt_0 e) as Hb.
    assert (Hmm : shr_m mrs <= shr_m mrs').
    { assert (IZR (shr_m mrs) < IZR (shr_m mrs') + 1)%R by nra.
      rewrite <- plus_IZR in H. apply lt_IZR in H. lia. }
    destruct (Z.eq_dec (shr_m mrs) (shr_m mrs')) as [Em|]; [|lia].
    enough (code mrs <= code mrs') by lia.
    unfold located in Hl, Hl'. rewrite <- Em in Hl'. unfold code.
    destruct (shr_r mrs), (shr_s mrs), (shr_r mrs'), (shr_s mrs');
      cbv zeta in *; try lia; exfalso; nra.
  - exfalso.
    assert (Hmlo : 4503599627370496 <= shr_m mrs) by lia.
    pose proof (bpow_gt_0 e) as Hb. pose proof (bpow_gt_0 e') as Hb'.
    assert (H1 : (bpow (52 + e) <= x)%R).
    { rewrite bpow_add, (bpow_nonneg_IZR 52) by lia.
      apply IZR_le in Hmlo. change (2 ^ 52) with 4503599627370496. nra. }
    assert (H2 : (x' < bpow (53 + e'))%R).
    { rewrite bpow_add, (bpow_nonneg_IZR 53) by lia.
      assert (shr_m mrs' + 1 <= 9007199254740992) by lia.
      apply IZR_le in H. rewrite plus_IZR in H.
      change (2 ^ 53) with 9007199254740992. nra. }
    assert (H3 : (bpow (53 + e') <= bpow (52 + e))%R) by (apply bpow_le; lia).
    lra.
Qed.

(** Rounding is monotone: of two located inputs, the larger one rounds to the
    larger float. *)
Lemma binary_round_aux_mono (x x' : R) m e l m' e' l' :
  (x <= x')%R ->
  0 <= m -> located x (shr_record_of_loc m l) e ->
  e <= fexp64 (Zdigits2 m + e) ->
  0 <= m' -> located x' (shr_record_of_loc m' l') e' ->
  e' <= fexp64 (Zdigits2 m' + e') ->
  SFleb (binary_round_aux prec emax false m e l)
        (binary_round_aux prec emax false m' e' l') = true.
Proof.
  intros Hx Hm Hl He Hm' Hl' He'.
  destruct (binary_round_aux_ordinal x false m e l Hm Hl He) as (L1 & C1 & F1).
  destruct (binary_round_aux_ordinal x' false m' e' l' Hm' Hl' He')
    as (L2 & C2 & F2).
  apply (float_at_leb _ _ _ _ F1 F2).
  apply rounded_mono. apply (position_mono x x'); assumption.
Qed.

Lemma F2R_pos m e : (0 < F2R m e)%R.
Proof.
  unfold F2R. apply Rmult_lt_0_compat; [|apply bpow_gt_0].
  apply IZR_lt. lia.
Qed.

Lemma bounded_canonical m e :
  SpecFloat.bounded prec emax m e = true ->
  fexp64 (Zdigits2 (Z.pos m) + e) = e /\ e <= 971 /\ canonical (Z.pos m) e.
Proof.
  unfold SpecFloat.bounded, canonical_mantissa. rewrite fexp64_eq. intros H.
  apply andb_true_iff in H. destruct H as [Hc Hb].
  apply Z.eqb_eq in Hc. apply Z.leb_le in Hb.
  change (emax - prec) with 971 in Hb.
  cbn [Zdigits2]. split; [exact Hc|]. split; [exact Hb|].
  pose proof (Zdigits2_bounds (Z.pos m) ltac:(lia)) as [Hlo Hhi].
  cbn [Zdigits2] in Hlo, Hhi.
  set (d := Z.pos (digits2_pos m)) in *.
  assert (Hd : 1 <= d) by (unfold d; lia).
  unfold canonical, fexp64 in *.
  assert (d <= 53) by lia.
  assert (Z.pos m < 9007199254740992).
  { apply Z.lt_le_trans with (1 := Hhi). change 9007199254740992 with (2 ^ 53).
    apply Z.pow_le_mono_r; lia. }
  repeat split; try lia.
  destruct (Z.eq_dec e (-1074)) as [|Hne]; [now left|right].
  assert (d = 53) by lia.
  replace (d - 1) with 52 in Hlo by lia.
  change (2 ^ 52) with 4503599627370496 in Hlo. exact Hlo.
Qed.

(** On valid finite floats the order of the format is the order of the
    reals they stand for. *)
Lemma SFleb_F2R m e m' e' :
  SpecFloat.bounded prec emax m e = true ->
  SpecFloat.bounded prec emax m' e' = true ->
  SFleb (S754_finite false m e) (S754_finite false m' e') = true ->
  (F2R m e <= F2R m' e')%R.
Proof.
  intros Hb Hb' H.
  destruct (bounded_canonical _ _ Hb) as (_ & _ & (Hm & He & Hc)).
  destruct (bounded_canonical _ _ Hb') as (_ & _ & (Hm' & He' & Hc')).
  unfold SFleb, SFcompare in H. unfold F2R.
  pose proof (bpow_gt_0 e) as B. pose proof (bpow_gt_0 e') as B'.
  destruct (Z.compare_spec e e') as [E|L|G].
  - subst e'. rewrite Pos.compare_cont_spec in H. cbn in H.
    destruct (Pos.compare_spec m m') as [Em|Lm|Gm]; try discriminate.
    + subst. lra.
    + apply Rmult_le_compat_r; [lra|]. apply IZR_le. lia.
  - assert (Hlo : (bpow (52 + e') <= IZR (Z.pos m') * bpow e')%R).
    { rewrite bpow_add, (bpow_nonneg_IZR 52) by lia.
      apply Rmult_le_compat_r; [lra|]. apply IZR_le.
      change (2 ^ 52) with 4503599627370496. lia. }
    assert (Hhi : (IZR (Z.pos m) * bpow e <= bpow (53 + e))%R).
    { rewrite bpow_add, (bpow_nonneg_IZR 53) by lia.
      apply Rmult_le_compat_r; [lra|]. apply IZR_le.
      change (2 ^ 53) with 9007199254740992. lia. }
    assert (bpow (53 + e) <= bpow (52 + e'))%R by (apply bpow_le; lia).
    lra.
  - discriminate.
Qed.

Lemma Zdigits2_mul_ge a b :
  0 < a -> 0 < b -> Zdigits2 a + Zdigits2 b - 1 <= Zdigits2 (a * b).
Proof.
  intros Ha Hb.
  pose proof (Zdigits2_bounds a Ha) as [La Ua].
  pose proof (Zdigits2_bounds b Hb) as [Lb Ub].
  pose proof (Zdigits2_bounds (a * b) ltac:(nia)) as [Lab Uab].
  assert (Hda : 1 <= Zdigits2 a) by (destruct a; cbn; lia).
  assert (Hdb : 1 <= Zdigits2 b) by (destruct b; cbn; lia).
  assert (H : 2 ^ (Zdigits2 a - 1 + (Zdigits2 b - 1)) < 2 ^ Zdigits2 (a * b)).
  { rewrite Z.pow_add_r by lia.
    apply Z.le_lt_trans with (2 := Uab).
    apply Z.mul_le_mono_nonneg; try assumption;
      apply Z.pow_nonneg; lia. }
  apply Z.pow_lt_mono_r_iff in H; [lia|lia|apply Zdigits2_nonneg].
Qed.

(** What [SFmul] hands to the rounding: the exact product, at an exponent
    that is fine enough. *)
Lemma mul_round_input mx ex my ey :
  SpecFloat.bounded prec emax mx ex = true ->
  SpecFloat.bounded prec emax my ey = true ->
  located (F2R mx ex * F2R my ey)
          (shr_record_of_loc (Z.pos (mx * my)) loc_Exact) (ex + ey) /\
  ex + ey <= fexp64 (Zdigits2 (Z.pos (mx * my)) + (ex + ey)).
Proof.
  intros Hx Hy.
  destruct (bounded_canonical _ _ Hx) as (Fx & _ & _).
  destruct (bounded_canonical _ _ Hy) as (Fy & _ & _).
  split.
  - unfold located, F2R. cbn [shr_record_of_loc shr_m shr_r shr_s].
    rewrite Pos2Z.inj_mul, mult_IZR, bpow_add. ring.
  - pose proof (Zdigits2_mul_ge (Z.pos mx) (Z.pos my) ltac:(lia) ltac:(lia))
      as Hd.
    rewrite <- Pos2Z.inj_mul in Hd.
    assert (1 <= Zdigits2 (Z.pos mx)) by (cbn; lia).
    assert (1 <= Zdigits2 (Z.pos my)) by (cbn; lia).
    unfold fexp64 in *. lia.
Qed.

(** Outputs of the rounding with sign bit clear are nonnegative numbers. *)
Lemma float_at_nonneg out K s :
  float_at false out K ->
  SFleb (S754_zero s) out = true /\ SFleb out (S754_infinity false) = true.
Proof.
  destruct out as [s0|s0| |s0 m e]; cbn; try tauto.
  - intros [-> _]. split; reflexivity.
  - intros (-> & _). split; reflexivity.
Qed.

Lemma mul_round_float_at mx ex my ey :
  SpecFloat.bounded prec emax mx ex = true ->
  SpecFloat.bounded prec emax my ey = true ->
  exists K, float_at false
    (binary_round_aux prec emax false (Z.pos (mx * my)) (ex + ey) loc_Exact) K.
Proof.
  intros Hx Hy. destruct (mul_round_input mx ex my ey Hx Hy) as [H1 H2].
  assert (H0 : 0 <= Z.pos (mx * my)) by lia.
  destruct (binary_round_aux_ordinal _ false _ _ _ H0 H1 H2) as (_ & _ & F).
  eexists. exact F.
Qed.

(** [SFmul] is monotone on nonnegative arguments, where it yields numbers. *)
Lemma SFmul_nonneg_mono x x' y y' :
  valid_binary x = true -> valid_binary x' = true ->
  valid_binary y = true -> valid_binary y' = true ->
  SFnonneg x = true -> SFleb x x' = true ->
  SFnonneg y = true -> SFleb y y' = true ->
  SFis_nan (SFmul prec emax x y) = false ->
  SFis_nan (SFmul prec emax x' y') = false ->
  SFleb (SFmul prec emax x y) (SFmul prec emax x' y') = true.
Proof.
  intros Vx Vx' Vy Vy' Nx Lx Ny Ly Hn Hn'.
  destruct x as [sx|sx| |sx mx ex]; try discriminate;
  destruct x' as [sx'|sx'| |sx' mx' ex']; try discriminate;
  destruct y as [sy|sy| |sy my ey]; try discriminate;
  destruct y' as [sy'|sy'| |sy' my' ey']; try discriminate;
  try (destruct sx; try discriminate);
  try (destruct sx'; try discriminate);
  try (destruct sy; try discriminate);
  try (destruct sy'; try discriminate);
  try reflexivity;
  unfold valid_binary in *; cbn [SFmul xorb SpecFloat.valid_binary] in *.
  all: try match goal with
  | |- SFleb (S754_zero _)
         (binary_round_aux _ _ false (Z.pos (?a * ?b)) (?ea + ?eb) _) = true =>
      destruct (mul_round_float_at a ea b eb) as [K F];
        [assumption|assumption|];
      apply (float_at_nonneg _ _ _ F)
  | |- SFleb (binary_round_aux _ _ false (Z.pos (?a * ?b)) (?ea + ?eb) _)
         (S754_infinity false) = true =>
      destruct (mul_round_float_at a ea b eb) as [K F];
        [assumption|assumption|];
      apply (float_at_nonneg _ _ false F)
  end.
  destruct (mul_round_input mx ex my ey Vx Vy) as [H1 H2].
  destruct (mul_round_input mx' ex' my' ey' Vx' Vy') as [H1' H2'].
  apply (binary_round_aux_mono _ _ _ _ _ _ _ _ ) with (3 := H1) (6 := H1');
    try lia; try assumption.
  pose proof (SFleb_F2R _ _ _ _ Vx Vx' Lx).
  pose proof (SFleb_F2R _ _ _ _ Vy Vy' Ly).
  pose proof (F2R_pos mx ex). pose proof (F2R_pos my ey).
  apply Rmult_le_compat; lra.
Qed.

(** The place of a remainder [k] of a division by [nb]: exact, or below,
    at or above the half. *)
Lemma new_location_spec (nb k : Z) :
  0 <= k < nb ->
  new_location nb k =
  if k =? 0 then loc_Exact else loc_Inexact (Z.compare (2 * k) nb).
Proof.
  intros Hk. unfold new_location, new_location_even, new_location_odd.
  destruct (Z.even nb) eqn:Ev; [reflexivity|].
  destruct (k =? 0); [reflexivity|]. f_equal.
  assert (Hodd : Z.odd nb = true) by (rewrite <- Z.negb_even, Ev; reflexivity).
  apply Z.odd_spec in Hodd. destruct Hodd as [h Hh].
  destruct (Z.compare_spec (2 * k + 1) nb), (Z.compare_spec (2 * k) nb);
    try reflexivity; lia.
Qed.

Lemma fexp64_mono a b : a <= b -> fexp64 a <= fexp64 b.
Proof. unfold fexp64. lia. Qed.

(** What [SFdiv] hands to the rounding: the quotient of the mantissas with
    the place of the exact quotient, at an exponent that is fine enough. *)
Lemma div_round_input mx ex my ey :
  let '(q, e', l) :=
    SFdiv_core_binary prec emax (Z.pos mx) ex (Z.pos my) ey in
  0 <= q /\
  located (F2R mx ex / F2R my ey) (shr_record_of_loc q l) e' /\
  e' <= fexp64 (Zdigits2 q + e').
Proof.
  unfold SFdiv_core_binary. rewrite fexp64_eq.
  set (d1 := Zdigits2 (Z.pos mx)). set (d2 := Zdigits2 (Z.pos my)).
  set (e' := Z.min (fexp64 (d1 + ex - (d2 + ey))) (ex - ey)).
  set (s := ex - ey - e').
  assert (Hs : 0 <= s) by (unfold s, e'; lia).
  set (m' := match s with
             | 0 => Z.pos mx
             | Z.pos _ => Z.shiftl (Z.pos mx) s
             | Z.neg _ => 0
             end).
  assert (Hm' : m' = Z.pos mx * 2 ^ s).
  { unfold m'. destruct s as [|p|p] eqn:Es; [lia| |lia].
    rewrite Z.shiftl_mul_pow2 by lia. reflexivity. }
  pose proof (Z_div_mod m' (Z.pos my) ltac:(lia)) as Hdiv.
  destruct (Z.div_eucl m' (Z.pos my)) as [q r]. destruct Hdiv as [Hq Hr].
  assert (Hpow : 0 < 2 ^ s) by (apply Z.pow_pos_nonneg; lia).
  assert (Hq0 : 0 <= q) by nia.
  split; [exact Hq0|]. split.
  - (* the exact quotient sits at [q + r / my] *)
    rewrite new_location_spec by exact Hr.
    pose proof (bpow_gt_0 e') as Be'. pose proof (bpow_gt_0 ey) as Bey.
    assert (Hmy : (0 < IZR (Z.pos my))%R) by (apply IZR_lt; lia).
    set (f := (IZR r / IZR (Z.pos my))%R).
    assert (Hf : (f * IZR (Z.pos my) = IZR r)%R) by (unfold f; field; lra).
    assert (HX : (F2R mx ex / F2R my ey = (IZR q + f) * bpow e')%R).
    { unfold F2R. replace ex with (s + e' + ey) by (unfold s; lia).
      rewrite !bpow_add, (bpow_nonneg_IZR s) by exact Hs.
      assert (Hint : (IZR (Z.pos mx) * IZR (2 ^ s)
                      = IZR (Z.pos my) * IZR q + IZR r)%R).
      { rewrite <- !mult_IZR, <- plus_IZR. f_equal. lia. }
      replace (IZR (Z.pos mx) * (IZR (2 ^ s) * bpow e' * bpow ey))%R
        with ((IZR (Z.pos my) * IZR q + IZR r) * bpow e' * bpow ey)%R
        by (rewrite <- Hint; ring).
      unfold f. field. lra. }
    rewrite HX.
    assert (Hr0 : (0 <= IZR r)%R) by (apply IZR_le; lia).
    unfold located.
    destruct (Z.eqb_spec r 0) as [E|NE].
    + cbn [shr_record_of_loc shr_m shr_r shr_s].
      assert (f = 0)%R by (unfold f; rewrite E; field; lra).
      rewrite H. ring.
    + assert (Hrpos : (0 < IZR r)%R) by (apply IZR_lt; lia).
      destruct (Z.compare_spec (2 * r) (Z.pos my)) as [E2|L2|G2];
        cbn [shr_record_of_loc shr_m shr_r shr_s].
      * apply (f_equal IZR) in E2. rewrite mult_IZR in E2.
        assert (f = / 2)%R by nra. rewrite H. reflexivity.
      * apply IZR_lt in L2. rewrite mult_IZR in L2. split; nra.
      * apply IZR_lt in G2. rewrite mult_IZR in G2.
        destruct Hr as [_ Hr]. apply IZR_lt in Hr. split; nra.
  - (* the exponent is fine enough *)
    assert (HD : d1 + ex - (d2 + ey) <= Zdigits2 q + e').
    { pose proof (Zdigits2_bounds (Z.pos mx) ltac:(lia)) as [L1 _].
      pose proof (Zdigits2_bounds (Z.pos my) ltac:(lia)) as [_ U2].
      fold d1 in L1. fold d2 in U2.
      assert (Hd1 : 1 <= d1) by (unfold d1; cbn; lia).
      assert (Hd2 : 1 <= d2) by (unfold d2; cbn; lia).
      pose proof (Zdigits2_nonneg q) as HDq.
      assert (Uq : q + 1 <= 2 ^ Zdigits2 q).
      { destruct (Z.eq_dec q 0) as [->|]; [cbn; lia|].
        pose proof (Zdigits2_bounds q ltac:(lia)). lia. }
      assert (H1 : 2 ^ (d1 - 1 + s) < 2 ^ (Zdigits2 q + d2)).
      { rewrite !Z.pow_add_r by lia.
        assert (2 ^ (d1 - 1) * 2 ^ s <= m') by (rewrite Hm'; nia).
        assert (m' < (q + 1) * Z.pos my) by lia.
        assert (0 < 2 ^ d2) by (apply Z.pow_pos_nonneg; lia).
        assert ((q + 1) * Z.pos my < 2 ^ Zdigits2 q * 2 ^ d2) by nia.
        lia. }
      apply Z.pow_lt_mono_r_iff in H1; [|lia|lia].
      unfold s in H1. lia. }
    apply Z.le_trans with (fexp64 (d1 + ex - (d2 + ey))); [unfold e'; lia|].
    apply fexp64_mono. exact HD.
Qed.

Lemma div_round_float_at mx ex my ey :
  exists K, float_at false (SFdiv prec emax (S754_finite false mx ex)
                              (S754_finite false my ey)) K.
Proof.
  cbn [SFdiv xorb].
  pose proof (div_round_input mx ex my ey) as H.
  destruct (SFdiv_core_binary prec emax (Z.pos mx) ex (Z.pos my) ey)
    as [[q e'] l].
  destruct H as (H0 & H1 & H2).
  destruct (binary_round_aux_ordinal _ false _ _ _ H0 H1 H2) as (_ & _ & F).
  eexists. exact F.
Qed.

(** [SFdiv] of a nonnegative numerator is antitone in a positive
    denominator, where it yields numbers. *)
Lemma SFdiv_nonneg_anti x y y' :
  valid_binary x = true -> valid_binary y = true -> valid_binary y' = true ->
  SFnonneg x = true -> SFpositive y = true -> SFleb y y' = true ->
  SFis_nan (SFdiv prec emax x y) = false ->
  SFis_nan (SFdiv prec emax x y') = false ->
  SFleb (SFdiv prec emax x y') (SFdiv prec emax x y) = true.
Proof.
  intros Vx Vy Vy' Nx Py Ly Hn Hn'.
  destruct x as [sx|sx| |sx mx ex]; try discriminate;
  destruct y as [sy|sy| |sy my ey]; try discriminate;
  destruct y' as [sy'|sy'| |sy' my' ey']; try discriminate;
  try (destruct sx; try discriminate);
  try (destruct sy; try discriminate);
  try (destruct sy'; try discriminate);
  try reflexivity.
  - (* finite / infinity against finite / finite *)
    destruct (div_round_float_at mx ex my ey) as [K F].
    apply (float_at_nonneg _ _ _ F).
  - (* finite / finite against finite / finite *)
    unfold valid_binary in *. cbn [SpecFloat.valid_binary] in *.
    cbn [SFdiv xorb].
    pose proof (div_round_input mx ex my ey) as H.
    pose proof (div_round_input mx ex my' ey') as H'.
    destruct (SFdiv_core_binary prec emax (Z.pos mx) ex (Z.pos my) ey)
      as [[q e1] l].
    destruct (SFdiv_core_binary prec emax (Z.pos mx) ex (Z.pos my') ey')
      as [[q' e1'] l'].
    destruct H as (H0 & H1 & H2). destruct H' as (H0' & H1' & H2').
    apply (binary_round_aux_mono _ _ _ _ _ _ _ _) with (3 := H1') (6 := H1);
      try assumption.
    pose proof (SFleb_F2R _ _ _ _ Vy Vy' Ly) as Hyy.
    pose proof (F2R_pos mx ex). pose proof (F2R_pos my ey).
    pose proof (F2R_pos my' ey').
    unfold Rdiv. apply Rmult_le_compat_l; [lra|].
    apply Rinv_le_contravar; assumption.
Qed.

End Rounding.

(** ** The order on primitive floats *)

Section FloatOrder.

Local Open Scope float_scope.

Lemma SFcompare_refl x : SFis_nan x = false -> SFcompare x x = Some Eq.
Proof.
  destruct x as [s|s| |s m e]; cbn; try discriminate; intros _.
  - reflexivity.
  - destruct s; reflexivity.
  - rewrite Z.compare_refl, Pos.compare_cont_refl. destruct s; reflexivity.
Qed.

Lemma is_nan_spec (f : float) : is_nan f = SFis_nan (Prim2SF f).
Proof.
  unfold is_nan. rewrite eqb_spec. unfold SFeqb.
  destruct (SFis_nan (Prim2SF f)) eqn:E.
  - destruct (Prim2SF f); try discriminate. reflexivity.
  - rewrite SFcompare_refl by exact E. reflexivity.
Qed.

Lemma SFleb_not_nan x y :
  SFleb x y = true -> SFis_nan x = false /\ SFis_nan y = false.
Proof. destruct x, y; cbn; try discriminate; split; reflexivity. Qed.

Lemma leb_not_nan (x y : float) :
  (x <=? y) = true -> is_nan x = false /\ is_nan y = false.
Proof. rewrite leb_spec, !is_nan_spec. apply SFleb_not_nan. Qed.

Lemma leb_refl (x : float) : is_nan x = false -> (x <=? x) = true.
Proof.
  rewrite is_nan_spec, leb_spec. intros H. unfold SFleb.
  now rewrite SFcompare_refl.
Qed.

Lemma ltb_leb (x y : float) : (x <? y) = true -> (x <=? y) = true.
Proof.
  rewrite ltb_spec, leb_spec. unfold SFltb, SFleb.
  destruct (SFcompare _ _) as [[]|]; try discriminate; reflexivity.
Qed.

Lemma nonneg_spec (x : float) : (0 <=? x) = SFnonneg (Prim2SF x).
Proof. rewrite leb_spec. reflexivity. Qed.

Lemma positive_spec (x : float) : (0 <? x) = SFpositive (Prim2SF x).
Proof. rewrite ltb_spec. reflexivity. Qed.

(** Multiplication of nonnegative floats is monotone in both arguments. *)
Lemma float_mul_mono (x x' y y' : float) :
  (0 <=? x) = true -> (x <=? x') = true ->
  (0 <=? y) = true -> (y <=? y') = true ->
  is_nan (x * y) = false -> is_nan (x' * y') = false ->
  (x * y <=? x' * y') = true.
Proof.
  rewrite !nonneg_spec, !is_nan_spec, !leb_spec, !mul_spec.
  intros. apply SFmul_nonneg_mono; try assumption; apply Prim2SF_valid.
Qed.

(** Division of a nonnegative float is antitone in a positive divisor. *)
Lemma float_div_anti (x y y' : float) :
  (0 <=? x) = true -> (0 <? y) = true -> (y <=? y') = true ->
  is_nan (x / y) = false -> is_nan (x / y') = false ->
  (x / y' <=? x / y) = true.
Proof.
  rewrite nonneg_spec, positive_spec, !is_nan_spec, !leb_spec, !div_spec.
  intros. apply SFdiv_nonneg_anti; try assumption; apply Prim2SF_valid.
Qed.

Lemma float_mul_nan_l (x y : float) :
  is_nan (x * y) = false -> is_nan x = false.
Proof.
  rewrite !is_nan_spec, mul_spec. destruct (Prim2SF x); try reflexivity.
  cbn. discriminate.
Qed.

(** The square of a positive float is a positive number or infinity. *)
Lemma float_square_pos (s : float) :
  (0 <? s) = true -> (0 <=? s * s) = true.
Proof.
  intros Hs. pose proof (ltb_leb _ _ Hs) as Hs'.
  destruct (leb_not_nan _ _ Hs') as [_ Hn].
  assert (Hnn : is_nan (s * s) = false).
  { rewrite is_nan_spec, mul_spec. rewrite positive_spec in Hs.
    pose proof (Prim2SF_valid s) as V.
    destruct (Prim2SF s) as [sg|sg| |sg m e]; try discriminate.
    - reflexivity.
    - destruct sg; try discriminate.
      destruct (mul_round_float_at m e m e V V) as [K F].
      unfold SF64mul. cbn [SFmul xorb].
      destruct (binary_round_aux _ _ _ _ _ _); try reflexivity. destruct F. }
  change 0 with (0 * 0) at 1.
  apply float_mul_mono; try assumption; reflexivity.
Qed.

Lemma float_div_nonneg (d a : float) :
  (0 <=? d) = true -> (0 <? a) = true -> is_nan (d / a) = false ->
  (0 <=? d / a) = true.
Proof.
  rewrite !nonneg_spec, positive_spec, is_nan_spec, div_spec.
  destruct (Prim2SF d) as [sd|sd| |sd md ed]; try discriminate;
  destruct (Prim2SF a) as [sa|sa| |sa ma ea]; try discriminate;
  try (destruct sd; try discriminate); try (destruct sa; try discriminate);
  try reflexivity.
  intros _ _ _.
  destruct (div_round_float_at md ed ma ea) as [K F].
  exact (proj1 (float_at_nonneg _ _ false F)).
Qed.

Lemma Ok_inj {A} (x y : A) : Ok x = Ok y -> x = y.
Proof.
  intros H.
  exact (f_equal (fun r => match r with Ok v => v | Raise _ => x end) H).
Qed.

Lemma SFeqb_eq x y :
  valid_binary x = true -> valid_binary y = true ->
  SFeqb x y = true ->
  x = y \/ (exists s s', x = S754_zero s /\ y = S754_zero s').
Proof.
  intros _ _. unfold SFeqb, SFcompare.
  destruct x as [s|s| |s m e], y as [s'|s'| |s' m' e']; try discriminate;
    try (destruct s; discriminate); try (destruct s'; discriminate).
  - intros _. right. eauto.
  - destruct s, s'; try discriminate; intros _; left; reflexivity.
  - destruct s, s'; try discriminate;
      destruct (Z.compare_spec e e'); try discriminate; subst;
      rewrite Pos.compare_cont_spec; cbn;
      destruct (Pos.compare_spec m m'); try discriminate; subst;
      intros _; left; reflexivity.
Qed.

Lemma float_eqb_one (s : float) : (s =? 1) = true -> s = 1.
Proof.
  rewrite eqb_spec. intros H.
  apply SFeqb_eq in H; try apply Prim2SF_valid.
  destruct H as [H|(a & b & _ & H)].
  - now apply Prim2SF_inj.
  - discriminate H.
Qed.

(** The base [float_pow] hands to the C library is positive. *)
Lemma negated_base_pos (s : float) :
  is_nan s = false -> (s =? 0) = false ->
  (0 <? (if s <? 0 then - s else s)) = true.
Proof.
  rewrite is_nan_spec, eqb_spec. intros Hn Hz.
  destruct (s <? 0) eqn:E; rewrite positive_spec, ?opp_spec;
    rewrite ltb_spec in E;
    destruct (Prim2SF s) as [sg|sg| |sg m e]; try discriminate;
    destruct sg; try discriminate; reflexivity.
Qed.

Lemma float_div_nan_r (x y : float) : is_nan y = true -> is_nan (x / y) = true.
Proof.
  rewrite !is_nan_spec, div_spec.
  destruct (Prim2SF y); try discriminate. destruct (Prim2SF x); reflexivity.
Qed.

Lemma float_div_not_nan_r (x y : float) :
  is_nan (x / y) = false -> is_nan y = false.
Proof.
  intros H. destruct (is_nan y) eqn:E; [|reflexivity].
  now rewrite (float_div_nan_r x y E) in H.
Qed.

Section Pow2.

Variable c_pow2 : float -> float.

(** What [float_pow2] returns is not negative, when the C library returns
    nothing negative. *)
Lemma float_pow2_nonneg (s a : float) :
  pow2_nonneg c_pow2 -> float_pow2 c_pow2 s = Ok a -> is_nan a = false ->
  (0 <=? a) = true.
Proof.
  intros Hc. unfold float_pow2.
  destruct (is_nan s) eqn:Hn.
  { intros H. apply Ok_inj in H. subst a. congruence. }
  destruct (is_infinity s) eqn:Hi.
  { intros H _. apply Ok_inj in H. subst a.
    rewrite nonneg_spec, abs_spec. unfold is_infinity in Hi.
    rewrite eqb_spec, abs_spec in Hi.
    destruct (Prim2SF s) as [sg|sg| |sg m e]; try discriminate; reflexivity. }
  destruct (s =? 0) eqn:Hz.
  { intros H _. apply Ok_inj in H. now subst a. }
  pose proof (negated_base_pos s Hn Hz) as Hpos.
  destruct ((if s <? 0 then - s else s) =? 1).
  { intros H _. apply Ok_inj in H. now subst a. }
  destruct (is_infinity (c_pow2 _)); [discriminate|].
  intros H Ha. apply Ok_inj in H. subst a. now apply Hc.
Qed.

(** On a positive base [float_pow2] returns the base if it is infinite, and
    else what the C library returns, when this is 1.0 at 1.0. *)
Lemma float_pow2_pos (s a : float) :
  c_pow2 1 = 1 -> (0 <? s) = true -> float_pow2 c_pow2 s = Ok a ->
  (is_infinity s = true /\ Prim2SF a = S754_infinity false) \/
  (is_infinity s = false /\ a = c_pow2 s).
Proof.
  intros H1 Hs. unfold float_pow2.
  assert (Hcase : Prim2SF s = S754_infinity false \/
                  exists m e, Prim2SF s = S754_finite false m e).
  { rewrite positive_spec in Hs.
    destruct (Prim2SF s) as [sg|sg| |sg m e]; try discriminate;
      destruct sg; try discriminate; eauto. }
  assert (Hnan : is_nan s = false).
  { rewrite is_nan_spec. destruct Hcase as [->|(m & e & ->)]; reflexivity. }
  rewrite Hnan.
  destruct Hcase as [Hinf|(m & e & Hfin)].
  - assert (Hi : is_infinity s = true).
    { unfold is_infinity. rewrite eqb_spec, abs_spec, Hinf. reflexivity. }
    rewrite Hi. intros H. apply Ok_inj in H. subst a. left.
    split; [reflexivity|]. now rewrite abs_spec, Hinf.
  - assert (Hi : is_infinity s = false).
    { unfold is_infinity. rewrite eqb_spec, abs_spec, Hfin. reflexivity. }
    assert (Hz : (s =? 0) = false).
    { rewrite eqb_spec, Hfin. reflexivity. }
    assert (Hneg : (s <? 0) = false).
    { rewrite ltb_spec, Hfin. reflexivity. }
    rewrite Hi, Hz, Hneg. right. split; [reflexivity|].
    destruct (s =? 1) eqn:E1.
    + apply Ok_inj in H. subst a.
      apply float_eqb_one in E1. subst s. now rewrite H1.
    + destruct (is_infinity (c_pow2 s)); [discriminate|].
      apply Ok_inj in H. now subst a.
Qed.

(** [float_pow2] keeps the order of positive bases, when the C library
    does. *)
Lemma float_pow2_mono (s1 s2 a1 a2 : float) :
  pow2_monotone c_pow2 ->
  (0 <? s1) = true -> (s1 <=? s2) = true ->
  float_pow2 c_pow2 s1 = Ok a1 -> float_pow2 c_pow2 s2 = Ok a2 ->
  is_nan a1 = false -> is_nan a2 = false ->
  (a1 <=? a2) = true.
Proof.
  intros [H1 Hm] Hs1 Hs12 E1 E2 Hn1 Hn2.
  assert (Hs2 : (0 <? s2) = true).
  { rewrite ltb_spec, leb_spec in *. unfold SFltb, SFleb in *.
    destruct (Prim2SF s1) as [a|a| |a m e]; try discriminate;
      destruct a; try discriminate;
      destruct (Prim2SF s2) as [b|b| |b m' e']; try discriminate;
      destruct b; try discriminate; reflexivity. }
  destruct (float_pow2_pos _ _ H1 Hs1 E1) as [[I1 A1]|[I1 A1]];
    destruct (float_pow2_pos _ _ H1 Hs2 E2) as [[I2 A2]|[I2 A2]].
  - rewrite leb_spec, A1, A2. reflexivity.
  - (* an infinite base below a finite one *)
    exfalso. unfold is_infinity in I1, I2.
    rewrite eqb_spec, abs_spec in I1, I2. rewrite leb_spec in Hs12.
    rewrite positive_spec in Hs1, Hs2.
    destruct (Prim2SF s1) as [a|a| |a m e]; try discriminate;
      destruct a; try discriminate;
      destruct (Prim2SF s2) as [b|b| |b m' e']; try discriminate;
      destruct b; discriminate.
  - rewrite is_nan_spec in Hn1. rewrite leb_spec, A2.
    destruct (Prim2SF a1) as [a|a| |a m e]; try discriminate;
      destruct a; reflexivity.
  - subst a1 a2. now apply Hm.
Qed.

End Pow2.

Lemma float_nonzero_positive (a : float) :
  (0 <=? a) = true -> (a =? 0) = false -> (0 <? a) = true.
Proof.
  rewrite nonneg_spec, positive_spec, eqb_spec.
  destruct (Prim2SF a) as [s|s| |s m e]; try discriminate;
    try (destruct s; try discriminate; reflexivity).
Qed.

End FloatOrder.

(** * The steps of [penalty] *)

Section PenaltyFacts.

Variable c_pow2 : float -> float.
Context {Structure BVSCalculator : Type}.
Variable eval : BVSCalculator -> Structure -> BVSCalculator.
Variable bvmsdiff : BVSCalculator -> float.

Implicit Types (st : State Structure BVSCalculator) (w : option pyobj).

(** [penalty] unfolded: which object it returns and the state it leaves. *)
Lemma penalty_unfold w st :
  penalty c_pow2 eval bvmsdiff w st =
  let n := next_id st in
  let after k := mkState (self_after eval st) k (structures st) in
  match float_pow2 c_pow2 (sig (self st)) with
  | Raise e => (Raise e, after (N.succ n))
  | Ok s2 =>
      match float_div (raw_divergence eval bvmsdiff st) s2 with
      | Raise e => (Raise e, after (N.succ n))
      | Ok q =>
          if scaled (self st) then
            match float_mul q (arg_w w) with
            | Raise e => (Raise e, after (N.succ (N.succ n)))
            | Ok v => (Ok (PyFloat (N.succ (N.succ n)) v),
                       after (N.succ (N.succ (N.succ n))))
            end
          else (Ok (PyFloat (N.succ n) q), after (N.succ (N.succ n)))
      end
  end.
Proof.
  unfold penalty, bind, calc_eval, calc_bvmsdiff, attr, lift, idiv,
    imul, new_float, bind, ret, raw_divergence, self_after, evaluated.
  cbn.
  destruct (float_pow2 c_pow2 (sig (self st))) as [s2|e]; [|reflexivity].
  destruct (float_div _ s2) as [q|e]; [|reflexivity].
  cbn. destruct (scaled (self st)); [|reflexivity].
  destruct (float_mul q _) as [v|e]; reflexivity.
Qed.

(** The value of a call is [penalty_of] at the raw divergence. *)
Lemma penalty_outcome w st :
  outcome (fst (penalty c_pow2 eval bvmsdiff w st)) =
  result_map Some
    (penalty_of c_pow2 (raw_divergence eval bvmsdiff st) (sig (self st))
                (scaled (self st)) (arg_w w)).
Proof.
  rewrite penalty_unfold. unfold penalty_of. cbn.
  destruct (float_pow2 c_pow2 (sig (self st))) as [s2|e]; [|reflexivity].
  destruct (float_div _ s2) as [q|e]; [|reflexivity].
  destruct (scaled (self st)); [|reflexivity].
  destruct (float_mul q _) as [v|e]; reflexivity.
Qed.

(** The state a call leaves is the state before it, with the calculator run
    and some identities used up. *)
Lemma penalty_state w st :
  self (snd (penalty c_pow2 eval bvmsdiff w st)) = self_after eval st /\
  structures (snd (penalty c_pow2 eval bvmsdiff w st)) = structures st /\
  (next_id st < next_id (snd (penalty c_pow2 eval bvmsdiff w st)))%N.
Proof.
  rewrite penalty_unfold. cbn.
  destruct (float_pow2 c_pow2 (sig (self st))) as [s2|e]; cbn;
    [|repeat split; lia].
  destruct (float_div _ s2) as [q|e]; cbn; [|repeat split; lia].
  destruct (scaled (self st)); cbn; [|repeat split; lia].
  destruct (float_mul q _) as [v|e]; cbn; repeat split; lia.
Qed.

(** A float returned by [penalty] is an object allocated during the call, and
    [penalty] raises no [AttributeError] of its own. *)
Lemma penalty_fresh w st :
  match fst (penalty c_pow2 eval bvmsdiff w st) with
  | Ok p => exists i v, p = PyFloat i v /\ (next_id st < i)%N
  | Raise e => e <> AttributeError
  end.
Proof.
  rewrite penalty_unfold. cbn.
  unfold float_pow2, float_div, float_mul, py_float, int_to_float.
  repeat match goal with
  | |- context [if ?b then _ else _] => destruct b; cbn
  | |- context [match arg_w w with _ => _ end] => destruct (arg_w w); cbn
  | |- exists i v, PyFloat ?a ?b = PyFloat i v /\ _ =>
      exists a, b; split; [reflexivity|lia]
  | |- _ <> _ => discriminate
  end.
Qed.

(** A call that returns the float [p] is [penalty_of] returning [p]. *)
Lemma penalty_returns w st (p : float) :
  outcome (fst (penalty c_pow2 eval bvmsdiff w st)) = Ok (Some p) ->
  penalty_of c_pow2 (raw_divergence eval bvmsdiff st) (sig (self st))
             (scaled (self st)) (arg_w w) = Ok p.
Proof.
  rewrite penalty_outcome.
  destruct (penalty_of _ _ _ _ _) as [v|e]; cbn; [|discriminate].
  intros H. apply Ok_inj in H.
  f_equal.
  exact (f_equal (fun o => match o with Some x => x | None => v end) H).
Qed.

End PenaltyFacts.

(** * The claims about [BVSRestraint] *)

Section Claims.

Variable c_pow2 : float -> float.
Context {Structure BVSCalculator : Type}.
Variable BVSCalculator_new : BVSCalculator.
Variable eval : BVSCalculator -> Structure -> BVSCalculator.
Variable bvmsdiff : BVSCalculator -> float.

Implicit Types (st : State Structure BVSCalculator) (w : option pyobj).

(** C1 (amended).  When [sig ** 2] evaluates to a float [s2] that is not zero,
    [penalty(w)] returns the quotient [d / s2] of the raw divergence [d] if
    the restraint is not scaled, whatever [w] is, and the product
    [(d / s2) * w], the rounded quotient times [w], if it is scaled.  In the
    scenario of a calculator that reports 4.0 this is 4.0 with [sig = 1],
    1.0 with [sig = 2], 2.0 with [sig = 2], [scaled] and [w = 2], and 8.0
    with [sig = 1], [scaled] and [w = 2]; at [sig = 2] the C library is
    taken to return 4.0 for [pow(2.0, 2.0)], which is exact. *)
Theorem penalty_value w st (d s2 : float) :
  raw_divergence eval bvmsdiff st = d ->
  float_pow2 c_pow2 (sig (self st)) = Ok s2 ->
  (s2 =? 0) = false ->
  outcome (fst (penalty c_pow2 eval bvmsdiff w st)) =
    (if scaled (self st)
     then result_map (fun wv => Some (d / s2 * wv)) (py_float (arg_w w))
     else Ok (Some (d / s2)))
  /\ (d = 4 ->
      (sig (self st) = 1 -> scaled (self st) = false ->
       outcome (fst (penalty c_pow2 eval bvmsdiff w st)) = Ok (Some 4)) /\
      (sig (self st) = 2 -> c_pow2 2 = 4 -> scaled (self st) = false ->
       outcome (fst (penalty c_pow2 eval bvmsdiff w st)) = Ok (Some 1)) /\
      (sig (self st) = 2 -> c_pow2 2 = 4 -> scaled (self st) = true ->
       py_float (arg_w w) = Ok 2 ->
       outcome (fst (penalty c_pow2 eval bvmsdiff w st)) = Ok (Some 2)) /\
      (sig (self st) = 1 -> scaled (self st) = true ->
       py_float (arg_w w) = Ok 2 ->
       outcome (fst (penalty c_pow2 eval bvmsdiff w st)) = Ok (Some 8))).
Proof.
  intros Hd Hs Hz.
  assert (Hout : outcome (fst (penalty c_pow2 eval bvmsdiff w st)) =
    (if scaled (self st)
     then result_map (fun wv => Some (d / s2 * wv)) (py_float (arg_w w))
     else Ok (Some (d / s2)))).
  { rewrite penalty_outcome, Hd. unfold penalty_of, float_div, float_mul.
    rewrite Hs, Hz. destruct (scaled (self st)); [|reflexivity].
    destruct (py_float (arg_w w)); reflexivity. }
  split; [exact Hout|].
  intros ->. rewrite Hout. clear Hout.
  assert (H2 : c_pow2 2 = 4 -> float_pow2 c_pow2 2 = Ok 4).
  { intros Hc. unfold float_pow2. cbn. now rewrite Hc. }
  split; [|split; [|split]].
  - intros H1 Hsc. rewrite H1 in Hs. rewrite Hsc.
    change (Ok 1 = Ok s2) in Hs. apply Ok_inj in Hs. now subst s2.
  - intros H1 Hc Hsc. rewrite H1, (H2 Hc) in Hs. rewrite Hsc.
    apply Ok_inj in Hs. now subst s2.
  - intros H1 Hc Hsc Hw. rewrite H1, (H2 Hc) in Hs. rewrite Hsc, Hw.
    apply Ok_inj in Hs. now subst s2.
  - intros H1 Hsc Hw. rewrite H1 in Hs. rewrite Hsc, Hw.
    change (Ok 1 = Ok s2) in Hs. apply Ok_inj in Hs. now subst s2.
Qed.

(** C3 (amended).  The constructor does not look at the range of [sig]: it
    stores [float(sig)] for every object [float()] accepts, so every float,
    zero, negative and NaN included, is stored as it is, and construction
    fails only where [float(sig)] fails.  A zero [sig] shows at evaluation
    time: every [penalty] call raises [ZeroDivisionError]. *)
Theorem init_keeps_any_sig (stru : loc) (sc : option pyobj) :
  (forall id v,
      __init__ BVSCalculator_new stru (Some (PyFloat id v)) sc =
      Ok (mkBVSRestraint BVSCalculator_new stru v (py_bool (arg_scaled sc))))
  /\ (forall o,
      __init__ BVSCalculator_new stru (Some o) sc =
      result_map
        (fun v => mkBVSRestraint BVSCalculator_new stru v
                    (py_bool (arg_scaled sc)))
        (py_float o))
  /\ (forall c b n strs w,
      fst (penalty c_pow2 eval bvmsdiff w
             (mkState (mkBVSRestraint c stru 0 b) n strs))
      = Raise ZeroDivisionError
      /\
      fst (penalty c_pow2 eval bvmsdiff w
             (mkState (mkBVSRestraint c stru (-0) b) n strs))
      = Raise ZeroDivisionError).
Proof.
  split; [reflexivity|]. split.
  - intros o. unfold __init__. cbn [arg_sig].
    destruct (py_float o); reflexivity.
  - intros c b n strs w. rewrite !penalty_unfold. split; reflexivity.
Qed.

(** C4.  An unscaled restraint returns the same result for every [w]; a
    scaled one returns [w * penalty(1.0)] for every float [w], and raises
    whatever [penalty(1.0)] raises. *)
Theorem penalty_w_invariant_or_linear
  (c : BVSCalculator) (l : loc) (s : float) (n : objid)
  (strs : loc -> Structure) :
  (forall w1 w2,
      penalty c_pow2 eval bvmsdiff w1
        (mkState (mkBVSRestraint c l s false) n strs) =
      penalty c_pow2 eval bvmsdiff w2
        (mkState (mkBVSRestraint c l s false) n strs))
  /\ (forall i j (wv : float),
      outcome (fst (penalty c_pow2 eval bvmsdiff (Some (PyFloat i wv))
                      (mkState (mkBVSRestraint c l s true) n strs))) =
      result_map (option_map (fun p1 => wv * p1))
        (outcome (fst (penalty c_pow2 eval bvmsdiff (Some (PyFloat j 1))
                         (mkState (mkBVSRestraint c l s true) n strs))))).
Proof.
  split.
  - intros w1 w2. rewrite !penalty_unfold. cbn.
    destruct (float_pow2 c_pow2 s); [|reflexivity].
    destruct (float_div _ _); reflexivity.
  - intros i j wv. rewrite !penalty_outcome. cbn.
    unfold penalty_of.
    destruct (float_pow2 c_pow2 s) as [s2|e]; [|reflexivity].
    destruct (float_div _ s2) as [q|e]; [|reflexivity].
    cbn. rewrite float_mul_1_r, float_mul_comm. reflexivity.
Qed.

(** C5 (amended).  For uncertainties [0 < sig1 < sig2], the same raw
    divergence [d >= 0] and, when the restraint is scaled, the same [w >= 0]:
    if both calls return a number, the penalty with [sig1] is greater than or
    equal to the penalty with [sig2].  The restraint divides by what the C
    library returns for [pow(sig, 2.0)], so this holds on a platform whose
    [pow(x, 2.0)] is not negative, is 1.0 at 1.0 and does not decrease as a
    positive [x] grows. *)
Theorem penalty_antitone_in_sig
  (c : BVSCalculator) (l : loc) (sc : bool) (n1 n2 : objid)
  (strs : loc -> Structure) w (s1 s2 p1 p2 : float) :
  let st1 := mkState (mkBVSRestraint c l s1 sc) n1 strs in
  let st2 := mkState (mkBVSRestraint c l s2 sc) n2 strs in
  pow2_nonneg c_pow2 -> pow2_monotone c_pow2 ->
  (0 <? s1) = true -> (s1 <? s2) = true ->
  (0 <=? raw_divergence eval bvmsdiff st1) = true ->
  (sc = true ->
   forall wv, py_float (arg_w w) = Ok wv -> (0 <=? wv) = true) ->
  outcome (fst (penalty c_pow2 eval bvmsdiff w st1)) = Ok (Some p1) ->
  outcome (fst (penalty c_pow2 eval bvmsdiff w st2)) = Ok (Some p2) ->
  is_nan p1 = false -> is_nan p2 = false ->
  (p2 <=? p1) = true.
Proof.
  cbv zeta. intros Hnn Hmono Hs1 Hs12 Hd Hw H1 H2 Hn1 Hn2.
  apply penalty_returns in H1. apply penalty_returns in H2.
  unfold raw_divergence, evaluated in *. cbn [self _calc _stru sig scaled
    structures] in *.
  set (d := bvmsdiff (eval c (strs l))) in *.
  unfold penalty_of in H1, H2.
  destruct (float_pow2 c_pow2 s1) as [a1|] eqn:E1; [|discriminate].
  destruct (float_pow2 c_pow2 s2) as [a2|] eqn:E2; [|discriminate].
  unfold float_div in H1, H2.
  destruct (a1 =? 0) eqn:Z1; [discriminate|].
  destruct (a2 =? 0) eqn:Z2; [discriminate|].
  (* the quotients are numbers, and so are the squares *)
  assert (Q : is_nan (d / a1) = false /\ is_nan (d / a2) = false).
  { destruct sc.
    - unfold float_mul in H1, H2.
      destruct (py_float (arg_w w)) as [wv|]; [|discriminate].
      apply Ok_inj in H1. apply Ok_inj in H2. subst p1 p2.
      split; eapply float_mul_nan_l; eassumption.
    - apply Ok_inj in H1. apply Ok_inj in H2. subst p1 p2. now split. }
  destruct Q as [Q1 Q2].
  pose proof (float_div_not_nan_r _ _ Q1) as N1.
  pose proof (float_div_not_nan_r _ _ Q2) as N2.
  (* the squares *)
  pose proof (float_pow2_nonneg c_pow2 _ _ Hnn E1 N1) as Ha1.
  pose proof (float_pow2_nonneg c_pow2 _ _ Hnn E2 N2) as Ha2.
  assert (Ha12 : (a1 <=? a2) = true).
  { apply (float_pow2_mono c_pow2 s1 s2); try assumption.
    now apply ltb_leb. }
  (* the quotients *)
  pose proof (float_nonzero_positive _ Ha1 Z1) as P1.
  pose proof (float_nonzero_positive _ Ha2 Z2) as P2.
  destruct sc.
  - (* scaled *)
    unfold float_mul in H1, H2.
    destruct (py_float (arg_w w)) as [wv|] eqn:Ew; [|discriminate].
    specialize (Hw eq_refl wv eq_refl).
    apply Ok_inj in H1. apply Ok_inj in H2. subst p1 p2.
    apply float_mul_mono; try assumption.
    + apply float_div_nonneg; assumption.
    + apply float_div_anti; assumption.
    + apply leb_refl. apply (leb_not_nan _ _ Hw).
  - (* not scaled *)
    apply Ok_inj in H1. apply Ok_inj in H2. subst p1 p2.
    apply float_div_anti; assumption.
Qed.

(** C6.  [sig] defaults to 1 and [scaled] to [False]; the stored [sig] is
    [float(sig)] and the stored flag is [bool(scaled)]; [w] defaults to the
    float 1.0. *)
Theorem defaults_and_coercions (stru : loc) :
  __init__ BVSCalculator_new stru None None =
    Ok (mkBVSRestraint BVSCalculator_new stru 1 false)
  /\ (forall s sc,
      __init__ BVSCalculator_new stru s sc =
      result_map
        (fun v => mkBVSRestraint BVSCalculator_new stru v
                    (py_bool (arg_scaled sc)))
        (py_float (arg_sig s)))
  /\ __init__ BVSCalculator_new stru (Some (PyInt 2)) (Some (PyInt 1)) =
       Ok (mkBVSRestraint BVSCalculator_new stru 2 true)
  /\ (forall st,
      penalty c_pow2 eval bvmsdiff None st =
      penalty c_pow2 eval bvmsdiff (Some w_default) st)
  /\ float_of w_default = Some 1.
Proof.
  split; [reflexivity|]. split; [|repeat split].
  intros s sc. unfold __init__.
  destruct (py_float (arg_sig s)); reflexivity.
Qed.

(** C7.  A call of [penalty] leaves [sig], [scaled] and the structure
    reference of the restraint as they were, and does not touch the
    structures; it runs the calculator on the structure as it is at the call
    and computes its result from what that run reports. *)
Theorem penalty_frame w st :
  let st' := snd (penalty c_pow2 eval bvmsdiff w st) in
  sig (self st') = sig (self st)
  /\ scaled (self st') = scaled (self st)
  /\ _stru (self st') = _stru (self st)
  /\ structures st' = structures st
  /\ _calc (self st') =
       eval (_calc (self st)) (structures st (_stru (self st)))
  /\ outcome (fst (penalty c_pow2 eval bvmsdiff w st)) =
       result_map Some
         (penalty_of c_pow2 (bvmsdiff (_calc (self st'))) (sig (self st))
                     (scaled (self st)) (arg_w w)).
Proof.
  cbv zeta.
  destruct (penalty_state c_pow2 eval bvmsdiff w st) as (Hs & Hstr & _).
  rewrite Hs, Hstr. cbn. repeat split.
  apply penalty_outcome.
Qed.

(** C8.  Two consecutive calls with the same [w], between which nothing
    changes the structure, so that the calculator reports the same raw
    divergence when it is run again, return the same float (or raise the same
    exception). *)
Theorem penalty_repeatable w st :
  bvmsdiff (eval (evaluated eval st) (structures st (_stru (self st)))) =
    bvmsdiff (evaluated eval st) ->
  outcome (fst (penalty c_pow2 eval bvmsdiff w
                  (snd (penalty c_pow2 eval bvmsdiff w st)))) =
  outcome (fst (penalty c_pow2 eval bvmsdiff w st)).
Proof.
  intros H.
  destruct (penalty_state c_pow2 eval bvmsdiff w st) as (Hs & Hstr & _).
  rewrite !penalty_outcome.
  unfold raw_divergence at 1. unfold evaluated at 1.
  rewrite Hs, Hstr. cbn [self_after _calc _stru sig scaled].
  rewrite H. reflexivity.
Qed.

(** C9.  [_validate] raises [AttributeError] exactly when the object that
    [penalty()] returned is [None] or is the object [numpy.nan] itself; the
    test is one of identity, so another float object that holds a NaN passes
    it.  Whatever [penalty()] raises is passed on unchanged. *)
Theorem validate_raises_on_identity :
  (forall st,
      fst (_validate c_pow2 eval bvmsdiff st) = Raise AttributeError <->
      exists p, fst (penalty c_pow2 eval bvmsdiff None st) = Ok p /\
                (p = PyNone \/ exists v, p = PyFloat nan_id v))
  /\ (forall (pen : option pyobj -> Py Structure BVSCalculator pyobj) st,
      _validate_with pen st =
      match pen None st with
      | (Ok p, st') =>
          (if is_None p || is_obj p numpy_nan
           then Raise AttributeError else Ok tt, st')
      | (Raise e, st') => (Raise e, st')
      end)
  /\ (forall p,
      is_None p || is_obj p numpy_nan = true <->
      p = PyNone \/ exists v, p = PyFloat nan_id v)
  /\ (forall i st,
      fst (_validate_with (fun _ => ret (PyFloat (N.succ i) nan)) st) = Ok tt).
Proof.
  assert (Hid : forall p,
      is_None p || is_obj p numpy_nan = true <->
      p = PyNone \/ exists v, p = PyFloat nan_id v).
  { intros p. destruct p as [| b | z | i v]; cbn.
    - split; [now left|reflexivity].
    - split; [discriminate|intros [H|[v H]]; discriminate].
    - split; [discriminate|intros [H|[v H]]; discriminate].
    - split.
      + intros H. apply N.eqb_eq in H. subst i. right. now exists v.
      + intros [H|[v' H]]; [discriminate|].
        injection H as -> _. reflexivity. }
  assert (Hw : forall (pen : option pyobj -> Py Structure BVSCalculator pyobj)
                      st,
      _validate_with pen st =
      match pen None st with
      | (Ok p, st') =>
          (if is_None p || is_obj p numpy_nan
           then Raise AttributeError else Ok tt, st')
      | (Raise e, st') => (Raise e, st')
      end).
  { intros pen st. unfold _validate_with, bind, raise.
    destruct (pen None st) as [[p|e] st']; [|reflexivity].
    destruct (is_None p || is_obj p numpy_nan); reflexivity. }
  split; [|split; [exact Hw|split; [exact Hid|]]].
  - intros st. unfold _validate. rewrite Hw.
    pose proof (penalty_fresh c_pow2 eval bvmsdiff None st) as Hf.
    destruct (penalty c_pow2 eval bvmsdiff None st) as [[p|e] st']; cbn in *.
    + split.
      * destruct (is_None p || is_obj p numpy_nan) eqn:E; [|discriminate].
        intros _. exists p. split; [reflexivity|]. now apply Hid.
      * intros (q & Hq & Hor). injection Hq as <-.
        apply Hid in Hor. now rewrite Hor.
    + split.
      * intros H. injection H as ->. now elim Hf.
      * intros (q & Hq & _). discriminate.
  - intros i st. rewrite Hw. cbn. destruct i; reflexivity.
Qed.

(** C10.  Called without [w], a scaled restraint and the unscaled restraint
    with the same calculator, structure and [sig] return the same float. *)
Theorem scaling_is_identity_at_default_w
  (c : BVSCalculator) (l : loc) (s : float) (n : objid)
  (strs : loc -> Structure) :
  outcome (fst (penalty c_pow2 eval bvmsdiff None
                  (mkState (mkBVSRestraint c l s true) n strs))) =
  outcome (fst (penalty c_pow2 eval bvmsdiff None
                  (mkState (mkBVSRestraint c l s false) n strs))).
Proof.
  rewrite !penalty_outcome. cbn. unfold penalty_of.
  destruct (float_pow2 c_pow2 s) as [s2|e]; [|reflexivity].
  destruct (float_div _ s2) as [q|e]; [|reflexivity].
  cbn. now rewrite float_mul_1_r.
Qed.

(** In a well-formed state [_validate] raises no [AttributeError]: what
    [penalty] returns is a float object made during the call, which is neither
    [None] nor the object [numpy.nan]. *)
Lemma validate_raises_no_AttributeError st :
  wf_state st ->
  fst (_validate c_pow2 eval bvmsdiff st) <> Raise AttributeError.
Proof.
  intros [Hn _]. unfold _validate, _validate_with, bind, raise.
  pose proof (penalty_fresh c_pow2 eval bvmsdiff None st) as Hf.
  destruct (penalty c_pow2 eval bvmsdiff None st) as [[p|e] st']; cbn in *.
  - destruct Hf as (i & v & -> & Hi). cbn.
    replace (i =? nan_id)%N with false; [discriminate|].
    symmetry. apply N.eqb_neq. unfold nan_id in *. lia.
  - intros H. injection H as ->. now elim Hf.
Qed.

End Claims.

(** * The claims at concrete restraints *)

Import Fixture.

(** A [pow(x, 2.0)] that rounds correctly is not negative and keeps the
    order. *)
Lemma pow2_is_nonneg : pow2_nonneg pow2.
Proof. intros x Hx _. now apply float_square_pos. Qed.

Lemma pow2_is_monotone : pow2_monotone pow2.
Proof.
  split; [reflexivity|]. intros x y Hx Hxy Hnx Hny. unfold pow2 in *.
  pose proof (ltb_leb _ _ Hx) as Hx'.
  apply float_mul_mono; assumption.
Qed.

(** The scenario of C1 at [sig = 2], [scaled] and the integer [w = 2]. *)
Lemma penalty_value_witness :
  raw_divergence (const_eval 4) read (state_of 0 2 true) = 4
  /\ float_pow2 pow2 2 = Ok 4
  /\ (4 =? 0) = false
  /\ outcome (fst (penalty pow2 (const_eval 4) read (Some (PyInt 2))
                     (state_of 0 2 true))) = Ok (Some 2).
Proof.
  split; [reflexivity|split; [reflexivity|split; [reflexivity|]]].
  exact (proj1 (penalty_value pow2 (const_eval 4) read (Some (PyInt 2))
                  (state_of 0 2 true) 4 4 eq_refl eq_refl eq_refl)).
Defined.

(** C1 as stated fails: with [sig = 1], [scaled] and [w = 2] the calculator
    that reports 4.0 gives 8.0, not 2.0; the product [(d / sig^2) * w] is not
    the float [d * w / sig^2] at [d = 1], [sig = 7], [w = 49]; and with
    [sig = 0] nothing is returned. *)
Lemma penalty_value_counterexample :
  outcome (fst (penalty pow2 (const_eval 4) read (Some (PyFloat 9%N 2))
                  (state_of 0 1 true))) <> Ok (Some 2)
  /\ outcome (fst (penalty pow2 (const_eval 4) read (Some (PyFloat 9%N 2))
                     (state_of 0 1 true))) = Ok (Some 8)
  /\ outcome (fst (penalty pow2 (const_eval 1) read (Some (PyFloat 9%N 49))
                     (state_of 0 7 true))) = Ok (Some (1 / 49 * 49))
  /\ (1 / 49 * 49 =? 1 * 49 / (7 * 7)) = false
  /\ fst (penalty pow2 (const_eval 4) read None (state_of 0 0 false))
     = Raise ZeroDivisionError.
Proof.
  split; [|repeat split].
  intros H.
  apply (f_equal (fun r => match r with
                           | Ok (Some x) => x =? 2
                           | _ => true
                           end)) in H.
  vm_compute in H. discriminate H.
Qed.

(** C2 at a structure for which the calculator reports NaN: the penalty is
    NaN and [_validate] returns without raising. *)
Theorem validate_silent_on_nan (c_pow2 : float -> float) :
  outcome (fst (penalty c_pow2 probe_eval read None (state_of nan 1 false)))
    = Ok (Some nan)
  /\ fst (_validate c_pow2 probe_eval read (state_of nan 1 false)) = Ok tt.
Proof. split; reflexivity. Qed.

(** C3 as stated fails: restraints with [sig = 0] and with [sig = -2] are
    constructed without an error. *)
Lemma init_keeps_any_sig_counterexample :
  __init__ calc_new 0%N (Some (PyInt 0)) None
    = Ok (mkBVSRestraint calc_new 0%N 0 false)
  /\ __init__ calc_new 0%N (Some (PyFloat 7%N (-2))) None
    = Ok (mkBVSRestraint calc_new 0%N (-2) false)
  /\ (0 <? 0) = false
  /\ (0 <? -2) = false.
Proof. repeat split. Qed.

(** C5 at a C library that rounds the square correctly, with [sig1 = 1],
    [sig2 = 2], a divergence of 4.0, scaled by [w = 3]: the penalties are 12.0
    and 3.0. *)
Lemma penalty_antitone_in_sig_witness :
  pow2_nonneg pow2 /\ pow2_monotone pow2
  /\ (0 <? 1) = true /\ (1 <? 2) = true
  /\ (0 <=? raw_divergence (const_eval 4) read (state_of 0 1 true)) = true
  /\ outcome (fst (penalty pow2 (const_eval 4) read (Some (PyInt 3))
                     (state_of 0 1 true))) = Ok (Some 12)
  /\ outcome (fst (penalty pow2 (const_eval 4) read (Some (PyInt 3))
                     (state_of 0 2 true))) = Ok (Some 3)
  /\ (3 <=? 12) = true.
Proof.
  split; [exact pow2_is_nonneg|]. split; [exact pow2_is_monotone|].
  repeat (split; [reflexivity|]).
  refine (penalty_antitone_in_sig pow2 (const_eval 4) read calc_new 0%N true
            2%N 2%N (fun _ => 0) (Some (PyInt 3)) 1 2 12 3
            pow2_is_nonneg pow2_is_monotone
            eq_refl eq_refl eq_refl _ eq_refl eq_refl eq_refl eq_refl).
  intros _ wv Hwv. apply Ok_inj in Hwv. subst wv. reflexivity.
Defined.

(** C5 as stated fails: a negative [sig1] below a positive [sig2] gives the
    smaller penalty; so does a negative divergence, or a negative [w] on a
    scaled restraint; and a positive [sig1] whose square underflows to zero
    gives no penalty at all. *)
Lemma penalty_antitone_in_sig_counterexample :
  ((-2 <? 1) = true
   /\ outcome (fst (penalty pow2 (const_eval 4) read None
                      (state_of 0 (-2) false)))
      = Ok (Some 1)
   /\ outcome (fst (penalty pow2 (const_eval 4) read None (state_of 0 1 false)))
      = Ok (Some 4)
   /\ (4 <=? 1) = false)
  /\ ((1 <? 2) = true
      /\ outcome (fst (penalty pow2 probe_eval read None
                         (state_of (-4) 1 false)))
         = Ok (Some (-4))
      /\ outcome (fst (penalty pow2 probe_eval read None
                         (state_of (-4) 2 false)))
         = Ok (Some (-1))
      /\ (-1 <=? -4) = false)
  /\ (outcome (fst (penalty pow2 (const_eval 4) read (Some (PyInt (-1)))
                      (state_of 0 1 true))) = Ok (Some (-4))
      /\ outcome (fst (penalty pow2 (const_eval 4) read (Some (PyInt (-1)))
                         (state_of 0 2 true))) = Ok (Some (-1))
      /\ (-1 <=? -4) = false)
  /\ ((0 <? 0x1p-600) = true /\ (0x1p-600 <? 1) = true
      /\ fst (penalty pow2 (const_eval 4) read None (state_of 0 0x1p-600 false))
         = Raise ZeroDivisionError).
Proof. repeat split. Qed.

(** C8 at the calculator that reports the structure's own figure. *)
Lemma penalty_repeatable_witness :
  read (probe_eval (evaluated probe_eval (state_of 3 2 true)) 3) =
    read (evaluated probe_eval (state_of 3 2 true))
  /\ outcome (fst (penalty pow2 probe_eval read (Some (PyInt 5))
                     (snd (penalty pow2 probe_eval read (Some (PyInt 5))
                             (state_of 3 2 true))))) =
     outcome (fst (penalty pow2 probe_eval read (Some (PyInt 5))
                     (state_of 3 2 true))).
Proof.
  split; [reflexivity|].
  exact (penalty_repeatable pow2 probe_eval read (Some (PyInt 5))
           (state_of 3 2 true) eq_refl).
Defined.

(** * More facts about binary64 arithmetic *)

Section Exact.
Local Open Scope Z_scope.

(** Two floats of one sign at one ordinal are the same float. *)
Lemma float_at_finite s out m e :
  float_at s out (ordinal (Z.pos m) e) ->
  canonical (Z.pos m) e -> e <= 971 ->
  out = S754_finite s m e.
Proof.
  unfold float_at, canonical, ordinal.
  destruct out as [s'|s'| |s' m' e']; intros H Hc He.
  - lia.
  - lia.
  - destruct H.
  - destruct H as (-> & HK & Hc' & He').
    assert (e' = e) by lia. subst e'.
    assert (m' = m) by lia. now subst m'.
Qed.

(** A real that a valid float stands for is rounded to that float. *)
Lemma binary_round_aux_exact s m0 e0 l0 m e :
  0 <= m0 ->
  located (F2R m e) (shr_record_of_loc m0 l0) e0 ->
  e0 <= fexp64 (Zdigits2 m0 + e0) ->
  SpecFloat.bounded prec emax m e = true ->
  binary_round_aux prec emax s m0 e0 l0 = S754_finite s m e.
Proof.
  intros Hm Hl He Hb.
  destruct (binary_round_aux_ordinal _ s _ _ _ Hm Hl He) as (L1 & C1 & F1).
  destruct (bounded_canonical _ _ Hb) as (_ & He' & Hc).
  set (ex := Build_shr_record (Z.pos m) false false).
  assert (Lex : located (F2R m e) ex e).
  { unfold located, ex, F2R. cbn. reflexivity. }
  assert (P1 := position_mono _ _ _ _ _ _ (Rle_refl _) L1 Lex C1 Hc).
  assert (P2 := position_mono _ _ _ _ _ _ (Rle_refl _) Lex L1 Hc C1).
  assert (R1 := rounded_mono _ _ _ _ P1).
  assert (R2 := rounded_mono _ _ _ _ P2).
  assert (Hex : rounded ex = Z.pos m) by reflexivity.
  rewrite Hex in R1, R2.
  apply float_at_finite; try assumption.
  replace (ordinal (Z.pos m) e)
    with (ordinal (rounded (fst (shr_fexp prec emax m0 e0 l0)))
                  (snd (shr_fexp prec emax m0 e0 l0))) by lia.
  exact F1.
Qed.

Lemma F2R_one : F2R 4503599627370496 (-52) = 1%R.
Proof.
  unfold F2R. change (-52) with (- (52)).
  unfold bpow. rewrite powerRZ_neg'.
  fold (bpow 52). rewrite (bpow_nonneg_IZR 52) by lia.
  change (2 ^ 52) with 4503599627370496.
  field.
Qed.

Lemma SFdiv_one_finite s m e :
  SpecFloat.bounded prec emax m e = true ->
  SFdiv prec emax (S754_finite s m e) (Prim2SF 1) = S754_finite s m e.
Proof.
  intros Hb. rewrite Prim2SF_one. cbn [SFdiv]. rewrite xorb_false_r.
  pose proof (div_round_input m e 4503599627370496 (-52)) as H.
  destruct (SFdiv_core_binary prec emax (Z.pos m) e 4503599627370496 (-52))
    as [[q e'] l].
  destruct H as (H0 & H1 & H2).
  rewrite F2R_one, Rdiv_1_r in H1.
  apply (binary_round_aux_exact s q e' l m e); assumption.
Qed.

End Exact.

Section MoreFloats.
Local Open Scope float_scope.

Lemma float_div_1_r (x : float) : x / 1 = x.
Proof.
  apply Prim2SF_inj. rewrite div_spec.
  pose proof (Prim2SF_valid x) as Hv.
  destruct (Prim2SF x) as [s|s| |s m e] eqn:E.
  - rewrite Prim2SF_one. cbn. now rewrite xorb_false_r.
  - rewrite Prim2SF_one. cbn. now rewrite xorb_false_r.
  - reflexivity.
  - apply SFdiv_one_finite. exact Hv.
Qed.

End MoreFloats.

Section MoreFloats.
Local Open Scope float_scope.

Lemma is_infinity_spec (f : float) :
  is_infinity f =
  match Prim2SF f with S754_infinity _ => true | _ => false end.
Proof.
  unfold is_infinity. rewrite eqb_spec, abs_spec.
  destruct (Prim2SF f) as [s|s| |s m e]; reflexivity.
Qed.

Lemma eqb_zero_spec (f : float) :
  (f =? 0) = match Prim2SF f with S754_zero _ => true | _ => false end.
Proof.
  rewrite eqb_spec.
  destruct (Prim2SF f) as [s|s| |s m e]; try reflexivity;
    destruct s; reflexivity.
Qed.

Lemma ltb_zero_spec (f : float) :
  (f <? 0) =
  match Prim2SF f with
  | S754_infinity s | S754_finite s _ _ => s
  | _ => false
  end.
Proof.
  rewrite ltb_spec.
  destruct (Prim2SF f) as [s|s| |s m e]; try reflexivity;
    destruct s; reflexivity.
Qed.

Lemma float_opp_nan (s : float) : is_nan s = true -> - s = s.
Proof.
  rewrite is_nan_spec. intros H. apply Prim2SF_inj. rewrite opp_spec.
  destruct (Prim2SF s); try discriminate. reflexivity.
Qed.

Lemma float_abs_opp (s : float) : abs (- s) = abs s.
Proof.
  apply Prim2SF_inj. rewrite !abs_spec, opp_spec.
  destruct (Prim2SF s); reflexivity.
Qed.

(** The base [float_pow] hands on is the absolute value. *)
Lemma negated_base_abs (s : float) :
  (s =? 0) = false -> (if s <? 0 then - s else s) = abs s.
Proof.
  rewrite eqb_zero_spec, ltb_zero_spec. intros Hz.
  apply Prim2SF_inj. rewrite abs_spec.
  destruct (Prim2SF s) as [sg|sg| |sg m e] eqn:E; try discriminate.
  - destruct sg; [rewrite opp_spec|]; now rewrite E.
  - now rewrite E.
  - destruct sg; [rewrite opp_spec|]; now rewrite E.
Qed.

Section PowCases.

Variable c_pow2 : float -> float.

(** [float_pow2], case by case. *)
Lemma float_pow2_spec (s : float) :
  float_pow2 c_pow2 s =
  if is_nan s then Ok s
  else if is_infinity s then Ok (abs s)
  else if s =? 0 then Ok 0
  else if abs s =? 1 then Ok 1
  else if is_infinity (c_pow2 (abs s)) then Raise OverflowError
  else Ok (c_pow2 (abs s)).
Proof.
  unfold float_pow2.
  destruct (is_nan s); [reflexivity|].
  destruct (is_infinity s); [reflexivity|].
  destruct (s =? 0) eqn:Hz; [reflexivity|].
  now rewrite (negated_base_abs s Hz).
Qed.

Lemma float_pow2_opp (s : float) :
  float_pow2 c_pow2 (- s) = float_pow2 c_pow2 s.
Proof.
  rewrite !float_pow2_spec, float_abs_opp.
  replace (is_infinity (- s)) with (is_infinity s)
    by (rewrite !is_infinity_spec, opp_spec; destruct (Prim2SF s); reflexivity).
  replace (- s =? 0) with (s =? 0)
    by (rewrite !eqb_zero_spec, opp_spec; destruct (Prim2SF s); reflexivity).
  destruct (is_nan s) eqn:Hn.
  - rewrite (float_opp_nan s Hn), Hn. reflexivity.
  - replace (is_nan (- s)) with false; [reflexivity|].
    rewrite is_nan_spec in *. rewrite opp_spec.
    destruct (Prim2SF s); try discriminate; reflexivity.
Qed.

(** [sig ** 2] raises nothing but [OverflowError], and this exactly when the
    C library is called and returns an infinity. *)
Lemma float_pow2_raises (s : float) (e : exn) :
  float_pow2 c_pow2 s = Raise e <->
  e = OverflowError /\ is_nan s = false /\ is_infinity s = false /\
  (s =? 0) = false /\ (abs s =? 1) = false /\
  is_infinity (c_pow2 (abs s)) = true.
Proof.
  rewrite float_pow2_spec.
  destruct (is_nan s);
    [split; [discriminate|intros (_ & H & _); discriminate]|].
  destruct (is_infinity s);
    [split; [discriminate|intros (_ & _ & H & _); discriminate]|].
  destruct (s =? 0);
    [split; [discriminate|intros (_ & _ & _ & H & _); discriminate]|].
  destruct (abs s =? 1);
    [split; [discriminate|intros (_ & _ & _ & _ & H & _); discriminate]|].
  destruct (is_infinity (c_pow2 (abs s))).
  - split.
    + intros H. repeat split.
      exact (f_equal (fun r => match r with
                               | Raise x => x
                               | Ok _ => e
                               end) (eq_sym H)).
    + intros (-> & _). reflexivity.
  - split; [discriminate|intros (_ & _ & _ & _ & _ & H); discriminate].
Qed.

End PowCases.

End MoreFloats.

Section DivMono.
Local Open Scope Z_scope.

(** [SFdiv] by a positive denominator is monotone in a nonnegative
    numerator, where it yields numbers. *)
Lemma SFdiv_nonneg_mono x x' y :
  valid_binary x = true -> valid_binary x' = true -> valid_binary y = true ->
  SFnonneg x = true -> SFleb x x' = true -> SFpositive y = true ->
  SFis_nan (SFdiv prec emax x y) = false ->
  SFis_nan (SFdiv prec emax x' y) = false ->
  SFleb (SFdiv prec emax x y) (SFdiv prec emax x' y) = true.
Proof.
  intros Vx Vx' Vy Nx Lx Py Hn Hn'.
  destruct x as [sx|sx| |sx mx ex]; try discriminate;
  destruct x' as [sx'|sx'| |sx' mx' ex']; try discriminate;
  destruct y as [sy|sy| |sy my ey]; try discriminate;
  try (destruct sx; try discriminate);
  try (destruct sx'; try discriminate);
  try (destruct sy; try discriminate);
  try reflexivity.
  all: try match goal with
  | |- SFleb (SFdiv _ _ (S754_zero _) _)
         (SFdiv _ _ (S754_finite false ?a ?ea) (S754_finite false ?b ?eb))
       = true =>
      destruct (div_round_float_at a ea b eb) as [K F];
      exact (proj1 (float_at_nonneg _ _ _ F))
  | |- SFleb (SFdiv _ _ (S754_finite false ?a ?ea) (S754_finite false ?b ?eb))
         (SFdiv _ _ (S754_infinity false) _) = true =>
      destruct (div_round_float_at a ea b eb) as [K F];
      exact (proj2 (float_at_nonneg _ _ false F))
  end.
  unfold valid_binary in *. cbn [SpecFloat.valid_binary] in *.
  cbn [SFdiv xorb].
  pose proof (div_round_input mx ex my ey) as H.
  pose proof (div_round_input mx' ex' my ey) as H'.
  destruct (SFdiv_core_binary prec emax (Z.pos mx) ex (Z.pos my) ey)
    as [[q e1] l].
  destruct (SFdiv_core_binary prec emax (Z.pos mx') ex' (Z.pos my) ey)
    as [[q' e1'] l'].
  destruct H as (H0 & H1 & H2). destruct H' as (H0' & H1' & H2').
  apply (binary_round_aux_mono _ _ _ _ _ _ _ _) with (3 := H1) (6 := H1');
    try assumption.
  pose proof (SFleb_F2R _ _ _ _ Vx Vx' Lx) as Hxx.
  pose proof (F2R_pos my ey).
  unfold Rdiv. apply Rmult_le_compat_r; [|exact Hxx].
  apply Rlt_le, Rinv_0_lt_compat. assumption.
Qed.

End DivMono.

Section MoreFloats2.
Local Open Scope float_scope.

(** Division by a positive float is monotone in a nonnegative numerator. *)
Lemma float_div_mono (x x' y : float) :
  (0 <=? x) = true -> (x <=? x') = true -> (0 <? y) = true ->
  is_nan (x / y) = false -> is_nan (x' / y) = false ->
  (x / y <=? x' / y) = true.
Proof.
  rewrite nonneg_spec, positive_spec, !is_nan_spec, !leb_spec, !div_spec.
  intros. apply SFdiv_nonneg_mono; try assumption; apply Prim2SF_valid.
Qed.



End MoreFloats2.

Section MoreFloats3.
Local Open Scope float_scope.

Lemma float_mul_zero_r (x y : float) :
  (y =? 0) = true -> is_nan (x * y) = false -> (x * y =? 0) = true.
Proof.
  rewrite is_nan_spec, !eqb_zero_spec, mul_spec.
  destruct (Prim2SF y); try discriminate. intros _.
  destruct (Prim2SF x); cbn; try discriminate; reflexivity.
Qed.

End MoreFloats3.

(** * More about [penalty] and [_validate] *)

(** [penalty_of], step by step. *)
Lemma penalty_of_closed (c_pow2 : float -> float) (d s : float) (b : bool)
  (o : pyobj) :
  penalty_of c_pow2 d s b o =
  match float_pow2 c_pow2 s with
  | Raise e => Raise e
  | Ok s2 =>
      if s2 =? 0 then Raise ZeroDivisionError
      else if b then result_map (fun wv => d / s2 * wv) (py_float o)
      else Ok (d / s2)
  end.
Proof.
  unfold penalty_of, float_div, float_mul.
  destruct (float_pow2 c_pow2 s) as [s2|e]; [|reflexivity].
  destruct (s2 =? 0); [reflexivity|].
  destruct b; [|reflexivity]. destruct (py_float o); reflexivity.
Qed.

(** The steps of a call that returned a number: [sig ** 2] is a number other
    than zero, and the result is the quotient, times [w] if scaled. *)
Lemma penalty_of_number (c_pow2 : float -> float) (d s : float) (b : bool)
  (o : pyobj) (p : float) :
  penalty_of c_pow2 d s b o = Ok p -> is_nan p = false ->
  exists s2,
    float_pow2 c_pow2 s = Ok s2 /\ (s2 =? 0) = false /\
    is_nan s2 = false /\ is_nan (d / s2) = false /\
    (if b then exists wv, py_float o = Ok wv /\ p = d / s2 * wv
     else p = d / s2).
Proof.
  rewrite penalty_of_closed.
  destruct (float_pow2 c_pow2 s) as [s2|e]; [|discriminate].
  destruct (s2 =? 0) eqn:Za; [discriminate|].
  intros H Hn. exists s2.
  assert (Hq : is_nan (d / s2) = false).
  { destruct b.
    - destruct (py_float o) as [wv|]; [|discriminate].
      apply Ok_inj in H. subst p. exact (float_mul_nan_l _ _ Hn).
    - apply Ok_inj in H. now subst p. }
  split; [reflexivity|]. split; [exact Za|].
  split; [exact (float_div_not_nan_r _ _ Hq)|]. split; [exact Hq|].
  destruct b.
  - destruct (py_float o) as [wv|]; [|discriminate].
    apply Ok_inj in H. exists wv. split; [reflexivity|now subst p].
  - apply Ok_inj in H. now subst p.
Qed.

(** Where the C library returns nothing negative, that [sig ** 2] is
    positive. *)
Lemma penalty_of_number_pos (c_pow2 : float -> float) (s s2 : float) :
  pow2_nonneg c_pow2 -> float_pow2 c_pow2 s = Ok s2 ->
  (s2 =? 0) = false -> is_nan s2 = false -> (0 <? s2) = true.
Proof.
  intros Hc E Hz Hn. apply float_nonzero_positive; [|exact Hz].
  exact (float_pow2_nonneg c_pow2 s s2 Hc E Hn).
Qed.

Section More.

Variable c_pow2 : float -> float.
Context {Structure BVSCalculator : Type}.
Variable BVSCalculator_new : BVSCalculator.
Variable eval : BVSCalculator -> Structure -> BVSCalculator.
Variable bvmsdiff : BVSCalculator -> float.

Implicit Types (st : State Structure BVSCalculator) (w : option pyobj).


(** X2.  For a calculator that evaluates the structure without raising, the
    outcome of [_validate] depends on [sig] alone (and on the platform): it
    raises what [sig ** 2] raises, which is [OverflowError] if anything, else
    [ZeroDivisionError] when [sig ** 2] is zero, and returns in every other
    state, whatever the structure, what the calculator reports and the flag
    [scaled]; it never raises [AttributeError]. *)
Theorem validate_depends_on_sig_only st :
  fst (_validate c_pow2 eval bvmsdiff st) =
    match float_pow2 c_pow2 (sig (self st)) with
    | Raise e => Raise e
    | Ok s2 => if s2 =? 0 then Raise ZeroDivisionError else Ok tt
    end
  /\ fst (_validate c_pow2 eval bvmsdiff st) <> Raise AttributeError.
Proof.
  assert (H : fst (_validate c_pow2 eval bvmsdiff st) =
    match float_pow2 c_pow2 (sig (self st)) with
    | Raise e => Raise e
    | Ok s2 => if s2 =? 0 then Raise ZeroDivisionError else Ok tt
    end).
  { unfold _validate, _validate_with, bind, raise. rewrite penalty_unfold.
    cbv zeta. unfold float_div, float_mul.
    destruct (float_pow2 c_pow2 (sig (self st))) as [s2|e]; [|reflexivity].
    destruct (s2 =? 0); [reflexivity|].
    destruct (scaled (self st)); cbn.
    - destruct (next_id st); reflexivity.
    - destruct (next_id st); reflexivity. }
  split; [exact H|]. rewrite H.
  destruct (float_pow2 c_pow2 (sig (self st))) as [s2|e] eqn:E.
  - destruct (s2 =? 0); discriminate.
  - apply float_pow2_raises in E. destruct E as (-> & _). discriminate.
Qed.

(** X3.  [penalty] does not see the sign of [sig]: the restraints with
    [sig] and with [-sig] return the same object or raise the same
    exception. *)
Theorem penalty_ignores_sign_of_sig
  (c : BVSCalculator) (l : loc) (s : float) (b : bool) (n : objid)
  (strs : loc -> Structure) w :
  fst (penalty c_pow2 eval bvmsdiff w
         (mkState (mkBVSRestraint c l (- s) b) n strs)) =
  fst (penalty c_pow2 eval bvmsdiff w
         (mkState (mkBVSRestraint c l s b) n strs)).
Proof.
  rewrite !penalty_unfold. cbn [self sig scaled next_id structures].
  rewrite float_pow2_opp. unfold raw_divergence, evaluated. cbn.
  destruct (float_pow2 c_pow2 s) as [s2|e]; [|reflexivity].
  destruct (float_div _ s2) as [q|e]; [|reflexivity].
  destruct b; [|reflexivity].
  destruct (float_mul q _); reflexivity.
Qed.

(** X4.  A restraint constructed with the defaults of [sig] and [scaled]
    returns the figure of the calculator itself, with no rounding, for every
    [w]; so does a scaled restraint with the default [sig] when [w] is left at
    its default. *)
Theorem default_restraint_returns_divergence
  (stru : loc) (n : objid) (strs : loc -> Structure) :
  exists r,
    __init__ BVSCalculator_new stru None None = Ok r /\
    (forall w,
        outcome (fst (penalty c_pow2 eval bvmsdiff w (mkState r n strs))) =
        Ok (Some (bvmsdiff (eval BVSCalculator_new (strs stru))))) /\
    (forall sc,
        py_bool sc = true ->
        exists r',
          __init__ BVSCalculator_new stru None (Some sc) = Ok r' /\
          outcome (fst (penalty c_pow2 eval bvmsdiff None
                          (mkState r' n strs))) =
          Ok (Some (bvmsdiff (eval BVSCalculator_new (strs stru))))).
Proof.
  eexists. split; [reflexivity|]. split.
  - intros w. rewrite penalty_outcome. cbn.
    unfold penalty_of. cbn. unfold float_div. cbn.
    now rewrite float_div_1_r.
  - intros sc Hsc. eexists. split; [reflexivity|].
    rewrite penalty_outcome. cbn. rewrite Hsc.
    unfold penalty_of. cbn. unfold float_div. cbn.
    now rewrite float_div_1_r, float_mul_1_r.
Qed.

End More.

Section More2.

Variable c_pow2 : float -> float.
Context {Structure BVSCalculator : Type}.
Variable eval : BVSCalculator -> Structure -> BVSCalculator.
Variable bvmsdiff : BVSCalculator -> float.

Implicit Types (st : State Structure BVSCalculator) (w : option pyobj).

(** X5.  [penalty] is monotone in the divergence: for one [sig], one flag
    [scaled] and one [w], which is nonnegative if the restraint is scaled, a
    nonnegative divergence and a greater one give results in the same order,
    where both are numbers.  The C library is asked to return nothing
    negative for a square. *)
Theorem penalty_monotone_in_divergence st1 st2 w (p1 p2 : float) :
  pow2_nonneg c_pow2 ->
  sig (self st1) = sig (self st2) ->
  scaled (self st1) = scaled (self st2) ->
  (0 <=? raw_divergence eval bvmsdiff st1) = true ->
  (raw_divergence eval bvmsdiff st1 <=? raw_divergence eval bvmsdiff st2)
    = true ->
  (scaled (self st1) = true ->
   forall wv, py_float (arg_w w) = Ok wv -> (0 <=? wv) = true) ->
  outcome (fst (penalty c_pow2 eval bvmsdiff w st1)) = Ok (Some p1) ->
  outcome (fst (penalty c_pow2 eval bvmsdiff w st2)) = Ok (Some p2) ->
  is_nan p1 = false -> is_nan p2 = false ->
  (p1 <=? p2) = true.
Proof.
  intros Hc Hs Hb Hd Hdd Hw H1 H2 Hn1 Hn2.
  apply penalty_returns in H1. apply penalty_returns in H2.
  rewrite <- Hs, <- Hb in H2.
  set (d1 := raw_divergence eval bvmsdiff st1) in *.
  set (d2 := raw_divergence eval bvmsdiff st2) in *.
  set (s := sig (self st1)) in *.
  destruct (penalty_of_number _ _ _ _ _ _ H1 Hn1)
    as (a & Ea & Za & Na & Q1 & E1).
  destruct (penalty_of_number _ _ _ _ _ _ H2 Hn2)
    as (a' & Ea' & _ & _ & Q2 & E2).
  rewrite Ea in Ea'. apply Ok_inj in Ea'. subst a'.
  pose proof (penalty_of_number_pos _ _ _ Hc Ea Za Na) as Pa.
  assert (Hq : (d1 / a <=? d2 / a) = true)
    by (apply float_div_mono; assumption).
  destruct (scaled (self st1)).
  - destruct E1 as (wv & Ew & ->). destruct E2 as (wv' & Ew' & ->).
    rewrite Ew in Ew'. apply Ok_inj in Ew'. subst wv'.
    specialize (Hw eq_refl wv Ew).
    apply float_mul_mono; try assumption.
    + apply float_div_nonneg; assumption.
    + apply leb_refl. exact (proj2 (leb_not_nan _ _ Hw)).
  - subst p1 p2. exact Hq.
Qed.

(** X6.  A nonnegative divergence gives a nonnegative penalty, where the
    result is a number and [w] is nonnegative if the restraint is scaled.
    The C library is asked to return nothing negative for a square. *)
Theorem penalty_nonnegative st w (p : float) :
  pow2_nonneg c_pow2 ->
  (0 <=? raw_divergence eval bvmsdiff st) = true ->
  (scaled (self st) = true ->
   forall wv, py_float (arg_w w) = Ok wv -> (0 <=? wv) = true) ->
  outcome (fst (penalty c_pow2 eval bvmsdiff w st)) = Ok (Some p) ->
  is_nan p = false ->
  (0 <=? p) = true.
Proof.
  intros Hc Hd Hw H Hn. apply penalty_returns in H.
  destruct (penalty_of_number _ _ _ _ _ _ H Hn) as (a & Ea & Za & Na & Q & E).
  pose proof (penalty_of_number_pos _ _ _ Hc Ea Za Na) as Pa.
  pose proof (float_div_nonneg _ _ Hd Pa Q) as Hq.
  destruct (scaled (self st)).
  - destruct E as (wv & Ew & ->). specialize (Hw eq_refl wv Ew).
    change 0 with (0 * 0) at 1.
    apply float_mul_mono; try assumption; reflexivity.
  - now subst p.
Qed.

(** X7.  The penalty of a scaled restraint is monotone in a nonnegative
    float [w], for a nonnegative divergence and where the results are
    numbers.  The C library is asked to return nothing negative for a
    square. *)
Theorem penalty_monotone_in_w
  (c : BVSCalculator) (l : loc) (s : float) (n1 n2 : objid)
  (strs : loc -> Structure) (i1 i2 : objid) (w1 w2 p1 p2 : float) :
  let st1 := mkState (mkBVSRestraint c l s true) n1 strs in
  let st2 := mkState (mkBVSRestraint c l s true) n2 strs in
  pow2_nonneg c_pow2 ->
  (0 <=? raw_divergence eval bvmsdiff st1) = true ->
  (0 <=? w1) = true -> (w1 <=? w2) = true ->
  outcome (fst (penalty c_pow2 eval bvmsdiff (Some (PyFloat i1 w1)) st1))
    = Ok (Some p1) ->
  outcome (fst (penalty c_pow2 eval bvmsdiff (Some (PyFloat i2 w2)) st2))
    = Ok (Some p2) ->
  is_nan p1 = false -> is_nan p2 = false ->
  (p1 <=? p2) = true.
Proof.
  cbv zeta. intros Hc Hd Hw1 Hw12 H1 H2 Hn1 Hn2.
  apply penalty_returns in H1. apply penalty_returns in H2.
  unfold raw_divergence, evaluated in *.
  cbn [self _calc _stru sig scaled structures arg_w] in *.
  destruct (penalty_of_number _ _ _ _ _ _ H1 Hn1)
    as (a & Ea & Za & Na & Q & (v1 & E1 & ->)).
  destruct (penalty_of_number _ _ _ _ _ _ H2 Hn2)
    as (a' & Ea' & _ & _ & _ & (v2 & E2 & ->)).
  rewrite Ea in Ea'. apply Ok_inj in Ea'. subst a'.
  pose proof (penalty_of_number_pos _ _ _ Hc Ea Za Na) as Pa.
  cbn in E1, E2. apply Ok_inj in E1. apply Ok_inj in E2. subst v1 v2.
  apply float_mul_mono; try assumption.
  - apply float_div_nonneg; assumption.
  - apply leb_refl. exact Q.
Qed.


(** X9.  A scaled restraint called with a [w] that converts to zero
    returns zero, unless its result is a NaN (the quotient is infinite or a
    NaN). *)
Theorem scaled_penalty_vanishes_at_zero_w st w (wv p : float) :
  scaled (self st) = true ->
  py_float (arg_w w) = Ok wv -> (wv =? 0) = true ->
  outcome (fst (penalty c_pow2 eval bvmsdiff w st)) = Ok (Some p) ->
  is_nan p = false ->
  (p =? 0) = true.
Proof.
  intros Hb Ew Hz H Hn. apply penalty_returns in H.
  destruct (penalty_of_number _ _ _ _ _ _ H Hn) as (a & _ & _ & _ & _ & E).
  rewrite Hb in E. destruct E as (wv' & Ew' & ->).
  rewrite Ew in Ew'. apply Ok_inj in Ew'. subst wv'.
  apply float_mul_zero_r; assumption.
Qed.

End More2.

Section More3.

Variable c_pow2 : float -> float.
Context {Structure BVSCalculator : Type}.
Variable eval : BVSCalculator -> Structure -> BVSCalculator.
Variable bvmsdiff : BVSCalculator -> float.

Implicit Types (st : State Structure BVSCalculator) (w : option pyobj).

(** X12.  [_validate] leaves the state one call of [penalty] without
    [w] leaves, whether it raises or returns: it runs the calculator once on
    the structure and changes nothing else. *)
Theorem validate_state_is_penalty_state st :
  snd (_validate c_pow2 eval bvmsdiff st) =
  snd (penalty c_pow2 eval bvmsdiff None st).
Proof.
  unfold _validate, _validate_with, bind, raise.
  destruct (penalty c_pow2 eval bvmsdiff None st) as [[p|e] st'];
    [|reflexivity].
  cbn [snd]. destruct (is_None p || is_obj p numpy_nan); reflexivity.
Qed.

End More3.

(** ** The properties at concrete restraints *)

(** X5 at [sig = 1], scaled by the integer [w = 3], for the divergences 2
    and 4. *)
Lemma penalty_monotone_in_divergence_witness :
  pow2_nonneg pow2
  /\ outcome (fst (penalty pow2 probe_eval read (Some (PyInt 3))
                     (state_of 2 1 true))) = Ok (Some 6)
  /\ outcome (fst (penalty pow2 probe_eval read (Some (PyInt 3))
                     (state_of 4 1 true))) = Ok (Some 12)
  /\ (6 <=? 12) = true.
Proof.
  split; [exact pow2_is_nonneg|].
  split; [reflexivity|]. split; [reflexivity|].
  refine (penalty_monotone_in_divergence pow2 probe_eval read
            (state_of 2 1 true) (state_of 4 1 true) (Some (PyInt 3)) 6 12
            pow2_is_nonneg
            eq_refl eq_refl eq_refl eq_refl _ eq_refl eq_refl eq_refl eq_refl).
  intros _ wv Hwv. apply Ok_inj in Hwv. subst wv. reflexivity.
Defined.

(** X6 at a divergence of 4, [sig = 2], scaled by [w = 3]. *)
Lemma penalty_nonnegative_witness :
  pow2_nonneg pow2
  /\ outcome (fst (penalty pow2 (const_eval 4) read (Some (PyInt 3))
                  (state_of 0 2 true))) = Ok (Some 3)
  /\ (0 <=? 3) = true.
Proof.
  split; [exact pow2_is_nonneg|]. split; [reflexivity|].
  refine (penalty_nonnegative pow2 (const_eval 4) read (state_of 0 2 true)
            (Some (PyInt 3)) 3 pow2_is_nonneg eq_refl _ eq_refl eq_refl).
  intros _ wv Hwv. apply Ok_inj in Hwv. subst wv. reflexivity.
Defined.

(** X7 at a divergence of 4 and [sig = 2], for [w = 1.0] and [w = 3.0]. *)
Lemma penalty_monotone_in_w_witness :
  pow2_nonneg pow2
  /\ outcome (fst (penalty pow2 (const_eval 4) read (Some (PyFloat 7%N 1))
                  (state_of 0 2 true))) = Ok (Some 1)
  /\ outcome (fst (penalty pow2 (const_eval 4) read (Some (PyFloat 8%N 3))
                     (state_of 0 2 true))) = Ok (Some 3)
  /\ (1 <=? 3) = true.
Proof.
  split; [exact pow2_is_nonneg|].
  split; [reflexivity|]. split; [reflexivity|].
  exact (penalty_monotone_in_w pow2 (const_eval 4) read calc_new 0%N 2 2%N
           2%N (fun _ => 0) 7%N 8%N 1 3 1 3 pow2_is_nonneg
           eq_refl eq_refl eq_refl eq_refl eq_refl eq_refl eq_refl).
Defined.


(** X9 at a divergence of 4, [sig = 1] and the integer [w = 0]. *)
Lemma scaled_penalty_vanishes_at_zero_w_witness :
  outcome (fst (penalty pow2 (const_eval 4) read (Some (PyInt 0))
                  (state_of 0 1 true))) = Ok (Some 0)
  /\ (0 =? 0) = true.
Proof.
  split; [reflexivity|].
  exact (scaled_penalty_vanishes_at_zero_w pow2 (const_eval 4) read
           (state_of 0 1 true) (Some (PyInt 0)) 0 0
           eq_refl eq_refl eq_refl eq_refl eq_refl).
Defined.

(** * The stages of [fitRecipe] *)

Section FitFacts.

Import ListNotations.
Local Open Scope string_scope.

Lemma existsb_through_map {A B} (f : B -> bool) (g : A -> B) (l : list A) :
  existsb (fun x => f (g x)) l = existsb f (map g l).
Proof. induction l as [|x l IH]; cbn; [reflexivity|now rewrite IH]. Qed.

Lemma has_var_names name r r' :
  var_names r = var_names r' -> has_var name r = has_var name r'.
Proof.
  unfold has_var, var_names. intros H.
  rewrite (existsb_through_map (fun n => String.eqb n name) var_name),
          (existsb_through_map (fun n => String.eqb n name) var_name
             (variables r')).
  now rewrite H.
Qed.

Lemma has_contribution_names name r r' :
  contribution_names r = contribution_names r' ->
  has_contribution name r = has_contribution name r'.
Proof.
  unfold has_contribution, contribution_names. intros H.
  rewrite (existsb_through_map (fun n => String.eqb n name) fst),
          (existsb_through_map (fun n => String.eqb n name) fst (weights r')).
  now rewrite H.
Qed.

Lemma var_name_free_one name value v :
  var_name (free_one name value v) = var_name v.
Proof. unfold free_one. destruct (String.eqb _ _); reflexivity. Qed.

Lemma var_names_freed name value r :
  var_names (freed name value r) = var_names r.
Proof.
  unfold var_names, freed. cbn. rewrite map_map.
  apply map_ext. intros v. apply var_name_free_one.
Qed.

Lemma var_names_fixAll r : var_names (fixAll r) = var_names r.
Proof. unfold var_names, fixAll. cbn. rewrite map_map. reflexivity. Qed.

Lemma var_names_freeAll r : var_names (freeAll r) = var_names r.
Proof. unfold var_names, freeAll. cbn. rewrite map_map. reflexivity. Qed.

Lemma var_names_setWeight c w r : var_names (setWeight c w r) = var_names r.
Proof. reflexivity. Qed.

Lemma contribution_names_setWeight c w r :
  contribution_names (setWeight c w r) = contribution_names r.
Proof.
  unfold contribution_names, setWeight. cbn. rewrite map_map.
  apply map_ext. intros [n x]. cbn. destruct (String.eqb n c); reflexivity.
Qed.

Lemma freeVar_freed name value r :
  has_var name r = true -> freeVar name value r = Some (freed name value r).
Proof. unfold freeVar. now intros ->. Qed.

Lemma var_names_tune_sas r : var_names (tune_sas r) = var_names r.
Proof.
  unfold tune_sas.
  now rewrite !var_names_freed, var_names_fixAll, var_names_setWeight.
Qed.

Lemma var_names_tune_pdf r : var_names (tune_pdf r) = var_names r.
Proof.
  unfold tune_pdf.
  now rewrite !var_names_freed, var_names_fixAll, !var_names_setWeight.
Qed.

Lemma var_names_tune_all r : var_names (tune_all r) = var_names r.
Proof.
  unfold tune_all. now rewrite var_names_freeAll, !var_names_setWeight.
Qed.

Lemma contribution_names_tune_sas r :
  contribution_names (tune_sas r) = contribution_names r.
Proof. unfold tune_sas. cbn. apply contribution_names_setWeight. Qed.

Lemma contribution_names_tune_pdf r :
  contribution_names (tune_pdf r) = contribution_names r.
Proof.
  unfold tune_pdf. cbn.
  change (contribution_names
            (setWeight "sas" (PyInt 0) (setWeight "pdf" (PyInt 1) r))
          = contribution_names r).
  now rewrite !contribution_names_setWeight.
Qed.

Lemma weight_setWeight_same c w r :
  has_contribution c r = true -> weight c (setWeight c w r) = Some w.
Proof.
  unfold has_contribution, weight, setWeight. cbn.
  induction (weights r) as [|[n x] l IH]; cbn; [discriminate|].
  destruct (String.eqb n c) eqn:E; cbn.
  - rewrite E. reflexivity.
  - rewrite E. exact IH.
Qed.

Lemma weight_setWeight_other c c' w r :
  String.eqb c' c = false -> weight c' (setWeight c w r) = weight c' r.
Proof.
  unfold weight, setWeight. cbn. intros Hne.
  induction (weights r) as [|[n x] l IH]; cbn; [reflexivity|].
  destruct (String.eqb n c) eqn:E; cbn.
  - apply String.eqb_eq in E. subst n.
    rewrite String.eqb_sym, Hne. exact IH.
  - destruct (String.eqb n c'); [reflexivity|exact IH].
Qed.

End FitFacts.

Section FitRuns.

Import ListNotations.
Local Open Scope string_scope.

Variable optimizer : FitRecipe -> FitRecipe.
Hypothesis optimizer_names :
  forall r, var_names (optimizer r) = var_names r.
Hypothesis optimizer_contributions :
  forall r, contribution_names (optimizer r) = contribution_names r.

Lemma registered_spec r :
  registered r = true <->
  (forall n, In n (sas_names ++ pdf_names)%list -> has_var n r = true) /\
  has_contribution "pdf" r = true /\ has_contribution "sas" r = true.
Proof.
  unfold registered. rewrite !andb_true_iff, forallb_forall. tauto.
Qed.

Lemma registered_names r r' :
  var_names r = var_names r' ->
  contribution_names r = contribution_names r' ->
  registered r = true -> registered r' = true.
Proof.
  intros Hv Hc. rewrite !registered_spec. intros (H & Hp & Hs).
  rewrite <- (has_contribution_names "pdf" r r' Hc),
          <- (has_contribution_names "sas" r r' Hc).
  repeat split; try assumption.
  intros n Hn. rewrite <- (has_var_names n r r' Hv). now apply H.
Qed.

Ltac has_var_now H :=
  match goal with
  | |- has_var ?n ?r = true =>
      erewrite has_var_names;
      [ apply H; cbn; tauto
      | repeat first [ rewrite var_names_freed | rewrite var_names_fixAll
                     | rewrite var_names_setWeight ]; reflexivity ]
  end.

Ltac has_contribution_now H :=
  match goal with
  | |- context [has_contribution ?n ?r] =>
      replace (has_contribution n r) with true;
      [ | symmetry; erewrite has_contribution_names;
          [ exact H
          | repeat rewrite contribution_names_setWeight; reflexivity ] ]
  end.

(** A run of [fitRecipe] on a recipe that has the variables and the
    contributions it names: three calls of the optimizer, on the recipes the
    three stages set up. *)
Lemma fitRecipe_run r log :
  registered r = true ->
  fitRecipe optimizer (r, log) =
  Some (tt,
        (optimizer (tune_all (optimizer (tune_pdf (optimizer (tune_sas r))))),
         (log ++ [tune_sas r;
                  tune_pdf (optimizer (tune_sas r));
                  tune_all (optimizer (tune_pdf (optimizer (tune_sas r))))])
         %list)).
Proof.
  intros Hreg.
  assert (Hreg1 : registered (optimizer (tune_sas r)) = true).
  { revert Hreg. apply registered_names.
    - now rewrite (optimizer_names (tune_sas r)), var_names_tune_sas.
    - now rewrite (optimizer_contributions (tune_sas r)),
        contribution_names_tune_sas. }
  assert (Hreg2 : registered (optimizer (tune_pdf (optimizer (tune_sas r))))
                  = true).
  { revert Hreg1. apply registered_names.
    - now rewrite (optimizer_names (tune_pdf _)), var_names_tune_pdf.
    - now rewrite (optimizer_contributions (tune_pdf _)),
        contribution_names_tune_pdf. }
  set (r1 := optimizer (tune_sas r)) in *.
  set (r2 := optimizer (tune_pdf r1)) in *.
  apply registered_spec in Hreg. destruct Hreg as (V0 & P0 & S0).
  apply registered_spec in Hreg1. destruct Hreg1 as (V1 & P1 & S1).
  apply registered_spec in Hreg2. destruct Hreg2 as (V2 & P2 & S2).
  unfold fitRecipe, fit_bind, attr_contribution, contribution, call, call_opt,
    scipyOptimize.
  cbn [fst snd].
  (* Tune SAS. *)
  rewrite P0. cbn [fst snd].
  rewrite (freeVar_freed "iqscale") by has_var_now V0. cbn [fst snd].
  rewrite (freeVar_freed "radius_a") by has_var_now V0. cbn [fst snd].
  rewrite (freeVar_freed "radius_b") by has_var_now V0. cbn [fst snd].
  fold (tune_sas r). fold r1.
  (* Tune PDF *)
  rewrite P1. cbn [fst snd].
  has_contribution_now S1. cbn [fst snd].
  rewrite (freeVar_freed "a") by has_var_now V1. cbn [fst snd].
  rewrite (freeVar_freed "Biso") by has_var_now V1. cbn [fst snd].
  rewrite (freeVar_freed "scale") by has_var_now V1. cbn [fst snd].
  rewrite (freeVar_freed "delta2") by has_var_now V1. cbn [fst snd].
  fold (tune_pdf r1). fold r2.
  (* Tune all *)
  rewrite P2. cbn [fst snd].
  has_contribution_now S2. cbn [fst snd].
  fold (tune_all r2).
  rewrite <- !app_assoc. reflexivity.
Qed.

End FitRuns.

Section StageFacts.

Import ListNotations.
Local Open Scope string_scope.

Lemma var_status_free_one name value v :
  var_status (free_one name value v) =
  if String.eqb (var_name v) name then Free else var_status v.
Proof. unfold free_one. destruct (String.eqb _ _); reflexivity. Qed.

Lemma var_value_free_one name value v :
  var_value (free_one name value v) =
  if String.eqb (var_name v) name
  then match value with Some x => x | None => var_value v end
  else var_value v.
Proof. unfold free_one. destruct (String.eqb _ _); reflexivity. Qed.

Lemma In_names (x : string) (l : list string) :
  In x l <-> existsb (String.eqb x) l = true.
Proof.
  rewrite existsb_exists. split.
  - intros H. exists x. split; [exact H|apply String.eqb_refl].
  - intros (y & Hy & E). apply String.eqb_eq in E. now subst y.
Qed.

(** After the set-up of a stage, the free variables are the ones the stage
    names. *)
Lemma tune_sas_status r v :
  In v (variables (tune_sas r)) ->
  (var_status v = Free <-> In (var_name v) sas_names).
Proof.
  unfold tune_sas, freed, fixAll. cbn [variables]. rewrite !map_map.
  intros H. apply in_map_iff in H. destruct H as (u & <- & _).
  rewrite In_names, !var_status_free_one, !var_name_free_one.
  cbn [set_status var_name var_status sas_names existsb].
  destruct (String.eqb (var_name u) "iqscale"),
           (String.eqb (var_name u) "radius_a"),
           (String.eqb (var_name u) "radius_b"); cbn;
    split; congruence.
Qed.

Lemma tune_pdf_status r v :
  In v (variables (tune_pdf r)) ->
  (var_status v = Free <-> In (var_name v) pdf_names).
Proof.
  unfold tune_pdf, freed, fixAll. cbn [variables]. rewrite !map_map.
  intros H. apply in_map_iff in H. destruct H as (u & <- & _).
  rewrite In_names, !var_status_free_one, !var_name_free_one.
  cbn [set_status var_name var_status pdf_names existsb].
  destruct (String.eqb (var_name u) "a"),
           (String.eqb (var_name u) "Biso"),
           (String.eqb (var_name u) "scale"),
           (String.eqb (var_name u) "delta2"); cbn;
    split; congruence.
Qed.

Lemma tune_all_status r v :
  In v (variables (tune_all r)) -> var_status v = Free.
Proof.
  unfold tune_all, freeAll. cbn [variables].
  intros H. apply in_map_iff in H. destruct H as (u & <- & _). reflexivity.
Qed.

(** The values a stage's set-up leaves: only [iqscale] is overwritten. *)
Lemma tune_sas_values r :
  map var_value (variables (tune_sas r)) =
  map (fun v => if String.eqb (var_name v) "iqscale" then 1e8
                else var_value v)
      (variables r).
Proof.
  unfold tune_sas, freed, fixAll. cbn [variables]. rewrite !map_map.
  apply map_ext. intros u.
  rewrite !var_value_free_one, !var_name_free_one.
  cbn [set_status var_name var_value].
  destruct (String.eqb (var_name u) "iqscale"),
           (String.eqb (var_name u) "radius_a"),
           (String.eqb (var_name u) "radius_b"); reflexivity.
Qed.

Lemma tune_pdf_values r :
  map var_value (variables (tune_pdf r)) = map var_value (variables r).
Proof.
  unfold tune_pdf, freed, fixAll. cbn [variables]. rewrite !map_map.
  apply map_ext. intros u.
  rewrite !var_value_free_one, !var_name_free_one.
  cbn [set_status var_name var_value].
  destruct (String.eqb (var_name u) "a"),
           (String.eqb (var_name u) "Biso"),
           (String.eqb (var_name u) "scale"),
           (String.eqb (var_name u) "delta2"); reflexivity.
Qed.

Lemma tune_all_values r :
  map var_value (variables (tune_all r)) = map var_value (variables r).
Proof.
  unfold tune_all, freeAll. cbn [variables]. rewrite map_map. reflexivity.
Qed.

(** The weights a stage's set-up leaves. *)
Lemma tune_sas_weights r :
  has_contribution "pdf" r = true ->
  weight "pdf" (tune_sas r) = Some (PyInt 0) /\
  weight "sas" (tune_sas r) = weight "sas" r.
Proof.
  intros Hp. unfold tune_sas.
  change (weight "pdf" (setWeight "pdf" (PyInt 0) r) = Some (PyInt 0) /\
          weight "sas" (setWeight "pdf" (PyInt 0) r) = weight "sas" r).
  split.
  - now apply weight_setWeight_same.
  - now apply weight_setWeight_other.
Qed.

Lemma tune_pdf_weights r :
  has_contribution "pdf" r = true -> has_contribution "sas" r = true ->
  weight "pdf" (tune_pdf r) = Some (PyInt 1) /\
  weight "sas" (tune_pdf r) = Some (PyInt 0).
Proof.
  intros Hp Hs. unfold tune_pdf.
  change (weight "pdf" (setWeight "sas" (PyInt 0)
                          (setWeight "pdf" (PyInt 1) r)) = Some (PyInt 1) /\
          weight "sas" (setWeight "sas" (PyInt 0)
                          (setWeight "pdf" (PyInt 1) r)) = Some (PyInt 0)).
  split.
  - rewrite weight_setWeight_other by reflexivity.
    now apply weight_setWeight_same.
  - apply weight_setWeight_same.
    erewrite has_contribution_names; [exact Hs|].
    apply contribution_names_setWeight.
Qed.

Lemma tune_all_weights r :
  has_contribution "pdf" r = true -> has_contribution "sas" r = true ->
  weight "pdf" (tune_all r) = Some (PyInt 1) /\
  weight "sas" (tune_all r) = Some (PyInt 1).
Proof.
  intros Hp Hs. unfold tune_all.
  change (weight "pdf" (setWeight "sas" (PyInt 1)
                          (setWeight "pdf" (PyInt 1) r)) = Some (PyInt 1) /\
          weight "sas" (setWeight "sas" (PyInt 1)
                          (setWeight "pdf" (PyInt 1) r)) = Some (PyInt 1)).
  split.
  - rewrite weight_setWeight_other by reflexivity.
    now apply weight_setWeight_same.
  - apply weight_setWeight_same.
    erewrite has_contribution_names; [exact Hs|].
    apply contribution_names_setWeight.
Qed.

End StageFacts.

Section FitClaims.

Import ListNotations.
Local Open Scope string_scope.

Variable optimizer : FitRecipe -> FitRecipe.

(** X10.  On a recipe that has the seven variables and the two
    contributions it names, and with an optimizer that keeps the names of
    the variables and of the contributions, [fitRecipe] succeeds and calls
    the optimizer three times.  The first run sees the weight of [pdf] at 0,
    that of [sas] as it was, and exactly [iqscale], [radius_a] and
    [radius_b] free; the second sees [pdf] at 1, [sas] at 0, and exactly
    [a], [Biso], [scale] and [delta2] free; the third sees both weights at 1
    and every variable free.  The recipe it leaves is the one the third run
    returns. *)
Theorem fitRecipe_stages (r : FitRecipe) :
  (forall x, var_names (optimizer x) = var_names x) ->
  (forall x, contribution_names (optimizer x) = contribution_names x) ->
  registered r = true ->
  exists s1 s2 s3,
    fitRecipe optimizer (r, []) = Some (tt, (optimizer s3, [s1; s2; s3])) /\
    (weight "pdf" s1 = Some (PyInt 0) /\ weight "sas" s1 = weight "sas" r /\
     forall v, In v (variables s1) ->
               (var_status v = Free <-> In (var_name v) sas_names)) /\
    (weight "pdf" s2 = Some (PyInt 1) /\ weight "sas" s2 = Some (PyInt 0) /\
     forall v, In v (variables s2) ->
               (var_status v = Free <-> In (var_name v) pdf_names)) /\
    (weight "pdf" s3 = Some (PyInt 1) /\ weight "sas" s3 = Some (PyInt 1) /\
     forall v, In v (variables s3) -> var_status v = Free).
Proof.
  intros Hn Hc Hreg.
  exists (tune_sas r), (tune_pdf (optimizer (tune_sas r))),
         (tune_all (optimizer (tune_pdf (optimizer (tune_sas r))))).
  split; [exact (fitRecipe_run optimizer Hn Hc r [] Hreg)|].
  assert (Hreg1 : registered (optimizer (tune_sas r)) = true).
  { revert Hreg. apply registered_names.
    - now rewrite (Hn (tune_sas r)), var_names_tune_sas.
    - now rewrite (Hc (tune_sas r)), contribution_names_tune_sas. }
  assert (Hreg2 : registered (optimizer (tune_pdf (optimizer (tune_sas r))))
                  = true).
  { revert Hreg1. apply registered_names.
    - now rewrite (Hn (tune_pdf _)), var_names_tune_pdf.
    - now rewrite (Hc (tune_pdf _)), contribution_names_tune_pdf. }
  apply registered_spec in Hreg. destruct Hreg as (_ & P0 & S0).
  apply registered_spec in Hreg1. destruct Hreg1 as (_ & P1 & S1).
  apply registered_spec in Hreg2. destruct Hreg2 as (_ & P2 & S2).
  destruct (tune_sas_weights r P0) as [W1 W1'].
  destruct (tune_pdf_weights _ P1 S1) as [W2 W2'].
  destruct (tune_all_weights _ P2 S2) as [W3 W3'].
  split; [|split].
  - split; [exact W1|split; [exact W1'|]].
    intros v Hv. exact (tune_sas_status r v Hv).
  - split; [exact W2|split; [exact W2'|]].
    intros v Hv. exact (tune_pdf_status _ v Hv).
  - split; [exact W3|split; [exact W3'|]].
    intros v Hv. exact (tune_all_status _ v Hv).
Qed.

(** X11.  What [fitRecipe] itself changes of the variables, under the
    conditions of X10: it leaves the names of the variables and of the
    contributions as they were; before the first run it overwrites the value
    of [iqscale] with 1e8 and no other value; between the runs it changes no
    value, so each later run starts from the values the run before it
    left. *)
Theorem fitRecipe_frame (r : FitRecipe) :
  (forall x, var_names (optimizer x) = var_names x) ->
  (forall x, contribution_names (optimizer x) = contribution_names x) ->
  registered r = true ->
  exists r' s1 s2 s3,
    fitRecipe optimizer (r, []) = Some (tt, (r', [s1; s2; s3])) /\
    r' = optimizer s3 /\
    var_names r' = var_names r /\
    contribution_names r' = contribution_names r /\
    map var_value (variables s1) =
      map (fun v => if String.eqb (var_name v) "iqscale" then 1e8
                    else var_value v) (variables r) /\
    map var_value (variables s2) = map var_value (variables (optimizer s1)) /\
    map var_value (variables s3) = map var_value (variables (optimizer s2)).
Proof.
  intros Hn Hc Hreg.
  eexists _, _, _, _.
  split; [exact (fitRecipe_run optimizer Hn Hc r [] Hreg)|].
  split; [reflexivity|]. split; [|split; [|split; [|split]]].
  - now rewrite (Hn (tune_all _)), var_names_tune_all, (Hn (tune_pdf _)),
      var_names_tune_pdf, (Hn (tune_sas r)), var_names_tune_sas.
  - rewrite (Hc (tune_all _)). unfold tune_all. cbn.
    change (contribution_names
              (setWeight "sas" (PyInt 1)
                 (setWeight "pdf" (PyInt 1)
                    (optimizer (tune_pdf (optimizer (tune_sas r))))))
            = contribution_names r).
    now rewrite !contribution_names_setWeight, (Hc (tune_pdf _)),
      contribution_names_tune_pdf, (Hc (tune_sas r)),
      contribution_names_tune_sas.
  - apply tune_sas_values.
  - apply tune_pdf_values.
  - apply tune_all_values.
Qed.

End FitClaims.

Section FixedStay.

Import ListNotations.
Local Open Scope string_scope.

Lemma Forall2_through_map {A B} (P : A -> B -> Prop) (Q : A -> B -> Prop)
  (g : A -> A) (l : list A) : forall l',
  (forall v v', P (g v) v' -> Q v v') ->
  Forall2 P (map g l) l' -> Forall2 Q l l'.
Proof.
  induction l as [|a l IH]; intros l' HPQ H; cbn in H.
  - inversion H. constructor.
  - inversion H as [|a' b' l1 l2 Hab Hl]. subst. constructor.
    + now apply HPQ.
    + now apply IH.
Qed.

Lemma Forall2_kept_names l l' :
  Forall2 kept l l' -> map var_name l' = map var_name l.
Proof.
  induction 1 as [|v v' l l' (Hn & _) _ IH]; cbn; [reflexivity|].
  now rewrite Hn, IH.
Qed.

Lemma Forall2_kept_free l l' :
  Forall2 kept l l' ->
  (forall v, In v l -> var_status v = Free) ->
  forall v', In v' l' -> var_status v' = Free.
Proof.
  induction 1 as [|v v' l l' (_ & Hs & _) _ IH]; intros Hl u Hu.
  - destruct Hu.
  - destruct Hu as [<-|Hu].
    + rewrite Hs. apply Hl. now left.
    + apply IH; [|exact Hu]. intros w Hw. apply Hl. now right.
Qed.

Variable optimizer : FitRecipe -> FitRecipe.
Hypothesis optimizer_moves_free_only : moves_free_only optimizer.

Lemma moves_free_only_names x : var_names (optimizer x) = var_names x.
Proof.
  unfold var_names. apply Forall2_kept_names.
  exact (proj1 (optimizer_moves_free_only x)).
Qed.

Lemma moves_free_only_contributions x :
  contribution_names (optimizer x) = contribution_names x.
Proof.
  unfold contribution_names.
  now rewrite (proj2 (optimizer_moves_free_only x)).
Qed.

Lemma moves_free_only_weight c x : weight c (optimizer x) = weight c x.
Proof.
  unfold weight. now rewrite (proj2 (optimizer_moves_free_only x)).
Qed.

(** The run of the first stage moves no variable but the three of the
    stage. *)
Lemma tune_sas_run_keeps r :
  Forall2 (fun v v' => ~ In (var_name v) sas_names ->
                       var_value v' = var_value v)
          (variables r) (variables (optimizer (tune_sas r))).
Proof.
  pose proof (proj1 (optimizer_moves_free_only (tune_sas r))) as H.
  set (l' := variables (optimizer (tune_sas r))) in *. clearbody l'.
  unfold tune_sas, freed, fixAll in H. cbn [variables] in H.
  rewrite !map_map in H.
  revert H. apply Forall2_through_map.
  intros v v' (_ & _ & Hv) Hn. rewrite In_names in Hn.
  rewrite !var_status_free_one, !var_value_free_one, !var_name_free_one in Hv.
  cbn [set_status var_name var_status var_value sas_names existsb] in Hv, Hn.
  destruct (String.eqb (var_name v) "iqscale"),
           (String.eqb (var_name v) "radius_a"),
           (String.eqb (var_name v) "radius_b"); cbn in Hn;
    try (now elim Hn).
  now apply Hv.
Qed.

Lemma tune_pdf_run_keeps r :
  Forall2 (fun v v' => ~ In (var_name v) pdf_names ->
                       var_value v' = var_value v)
          (variables r) (variables (optimizer (tune_pdf r))).
Proof.
  pose proof (proj1 (optimizer_moves_free_only (tune_pdf r))) as H.
  set (l' := variables (optimizer (tune_pdf r))) in *. clearbody l'.
  unfold tune_pdf, freed, fixAll in H. cbn [variables] in H.
  rewrite !map_map in H.
  revert H. apply Forall2_through_map.
  intros v v' (_ & _ & Hv) Hn. rewrite In_names in Hn.
  rewrite !var_status_free_one, !var_value_free_one, !var_name_free_one in Hv.
  cbn [set_status var_name var_status var_value pdf_names existsb] in Hv, Hn.
  destruct (String.eqb (var_name v) "a"),
           (String.eqb (var_name v) "Biso"),
           (String.eqb (var_name v) "scale"),
           (String.eqb (var_name v) "delta2"); cbn in Hn;
    try (now elim Hn).
  now apply Hv.
Qed.

End FixedStay.

Section FitClaims2.

Import ListNotations.
Local Open Scope string_scope.

Variable optimizer : FitRecipe -> FitRecipe.

(** X13.  With an optimizer that moves the free variables only, and on a
    recipe that has the variables and the contributions it names,
    [fitRecipe] succeeds and leaves a recipe in which every variable is
    free and both contributions have weight 1, with the variables it had. *)
Theorem fitRecipe_leaves_all_free (r : FitRecipe) :
  moves_free_only optimizer -> registered r = true ->
  exists r' log,
    fitRecipe optimizer (r, []) = Some (tt, (r', log)) /\
    (forall v, In v (variables r') -> var_status v = Free) /\
    weight "pdf" r' = Some (PyInt 1) /\ weight "sas" r' = Some (PyInt 1) /\
    var_names r' = var_names r.
Proof.
  intros Hopt Hreg.
  pose proof (moves_free_only_names optimizer Hopt) as Hn.
  pose proof (moves_free_only_contributions optimizer Hopt) as Hc.
  eexists _, _.
  split; [exact (fitRecipe_run optimizer Hn Hc r [] Hreg)|].
  assert (Hreg1 : registered (optimizer (tune_sas r)) = true).
  { revert Hreg. apply registered_names.
    - now rewrite (Hn (tune_sas r)), var_names_tune_sas.
    - now rewrite (Hc (tune_sas r)), contribution_names_tune_sas. }
  assert (Hreg2 : registered (optimizer (tune_pdf (optimizer (tune_sas r))))
                  = true).
  { revert Hreg1. apply registered_names.
    - now rewrite (Hn (tune_pdf _)), var_names_tune_pdf.
    - now rewrite (Hc (tune_pdf _)), contribution_names_tune_pdf. }
  apply registered_spec in Hreg2. destruct Hreg2 as (_ & P2 & S2).
  destruct (tune_all_weights _ P2 S2) as [W3 W3'].
  split; [|split; [|split]].
  - apply (Forall2_kept_free _ _ (proj1 (Hopt (tune_all _)))).
    apply tune_all_status.
  - now rewrite moves_free_only_weight.
  - now rewrite moves_free_only_weight.
  - now rewrite (Hn (tune_all _)), var_names_tune_all, (Hn (tune_pdf _)),
      var_names_tune_pdf, (Hn (tune_sas r)), var_names_tune_sas.
Qed.

(** X14.  With an optimizer that moves the free variables only, each of
    the first two runs moves the variables of its stage only: after the
    first run every variable but [iqscale], [radius_a] and [radius_b] has the
    value it came with, and the second run leaves every variable but [a],
    [Biso], [scale] and [delta2] at the value the first run left. *)
Theorem fitRecipe_stage_moves_its_variables_only (r : FitRecipe) :
  moves_free_only optimizer -> registered r = true ->
  exists s1 s2 s3,
    fitRecipe optimizer (r, []) = Some (tt, (optimizer s3, [s1; s2; s3])) /\
    Forall2 (fun v v' => ~ In (var_name v) sas_names ->
                         var_value v' = var_value v)
            (variables r) (variables (optimizer s1)) /\
    Forall2 (fun v v' => ~ In (var_name v) pdf_names ->
                         var_value v' = var_value v)
            (variables (optimizer s1)) (variables (optimizer s2)).
Proof.
  intros Hopt Hreg.
  pose proof (moves_free_only_names optimizer Hopt) as Hn.
  pose proof (moves_free_only_contributions optimizer Hopt) as Hc.
  eexists _, _, _.
  split; [exact (fitRecipe_run optimizer Hn Hc r [] Hreg)|].
  split.
  - now apply tune_sas_run_keeps.
  - now apply tune_pdf_run_keeps.
Qed.

End FitClaims2.

(** ** The stages at a concrete recipe *)

Import FitFixture.

Section FitWitnesses.

Import ListNotations.
Local Open Scope string_scope.

Lemma halve_free_names (x : FitRecipe) :
  var_names (halve_free x) = var_names x.
Proof.
  unfold var_names, halve_free. cbn [variables]. rewrite map_map.
  apply map_ext. intros v. destruct (var_status v); reflexivity.
Qed.

Lemma halve_free_contributions (x : FitRecipe) :
  contribution_names (halve_free x) = contribution_names x.
Proof. reflexivity. Qed.

(** X10 at the recipe of the example and an optimizer that halves the free
    variables. *)
Lemma fitRecipe_stages_witness :
  registered example_recipe = true /\
  exists s1 s2 s3,
    fitRecipe halve_free (example_recipe, []) =
      Some (tt, (halve_free s3, [s1; s2; s3])) /\
    (weight "pdf" s1 = Some (PyInt 0) /\
     weight "sas" s1 = weight "sas" example_recipe /\
     forall v, In v (variables s1) ->
               (var_status v = Free <-> In (var_name v) sas_names)) /\
    (weight "pdf" s2 = Some (PyInt 1) /\ weight "sas" s2 = Some (PyInt 0) /\
     forall v, In v (variables s2) ->
               (var_status v = Free <-> In (var_name v) pdf_names)) /\
    (weight "pdf" s3 = Some (PyInt 1) /\ weight "sas" s3 = Some (PyInt 1) /\
     forall v, In v (variables s3) -> var_status v = Free).
Proof.
  split; [reflexivity|].
  exact (fitRecipe_stages halve_free example_recipe
           halve_free_names halve_free_contributions eq_refl).
Defined.

(** X11 at the same recipe and optimizer. *)
Lemma fitRecipe_frame_witness :
  registered example_recipe = true /\
  exists r' s1 s2 s3,
    fitRecipe halve_free (example_recipe, []) = Some (tt, (r', [s1; s2; s3])) /\
    r' = halve_free s3 /\
    var_names r' = var_names example_recipe /\
    contribution_names r' = contribution_names example_recipe /\
    map var_value (variables s1) =
      map (fun v => if String.eqb (var_name v) "iqscale" then 1e8
                    else var_value v) (variables example_recipe) /\
    map var_value (variables s2) = map var_value (variables (halve_free s1)) /\
    map var_value (variables s3) = map var_value (variables (halve_free s2)).
Proof.
  split; [reflexivity|].
  exact (fitRecipe_frame halve_free example_recipe
           halve_free_names halve_free_contributions eq_refl).
Defined.

End FitWitnesses.

Section FitWitnesses2.

Import ListNotations.
Local Open Scope string_scope.

Lemma halve_free_moves_free_only : moves_free_only halve_free.
Proof.
  intros x. split; [|reflexivity].
  unfold halve_free. cbn [variables].
  induction (variables x) as [|v l IH]; cbn [map]; constructor; [|exact IH].
  unfold kept. destruct (var_status v) eqn:E; cbn.
  - split; [reflexivity|]. split; [reflexivity|]. discriminate.
  - split; [reflexivity|]. split; [exact E|]. reflexivity.
Qed.

(** X13 at the recipe of the example and the optimizer that halves the free
    variables. *)
Lemma fitRecipe_leaves_all_free_witness :
  registered example_recipe = true /\
  exists r' log,
    fitRecipe halve_free (example_recipe, []) = Some (tt, (r', log)) /\
    (forall v, In v (variables r') -> var_status v = Free) /\
    weight "pdf" r' = Some (PyInt 1) /\ weight "sas" r' = Some (PyInt 1) /\
    var_names r' = var_names example_recipe.
Proof.
  split; [reflexivity|].
  exact (fitRecipe_leaves_all_free halve_free example_recipe
           halve_free_moves_free_only eq_refl).
Defined.

(** X14 at the same recipe and optimizer. *)
Lemma fitRecipe_stage_moves_its_variables_only_witness :
  registered example_recipe = true /\
  exists s1 s2 s3,
    fitRecipe halve_free (example_recipe, []) =
      Some (tt, (halve_free s3, [s1; s2; s3])) /\
    Forall2 (fun v v' => ~ In (var_name v) sas_names ->
                         var_value v' = var_value v)
            (variables example_recipe) (variables (halve_free s1)) /\
    Forall2 (fun v v' => ~ In (var_name v) pdf_names ->
                         var_value v' = var_value v)
            (variables (halve_free s1)) (variables (halve_free s2)).
Proof.
  split; [reflexivity|].
  exact (fitRecipe_stage_moves_its_variables_only halve_free example_recipe
           halve_free_moves_free_only eq_refl).
Defined.

End FitWitnesses2.
